(** * The remote call layer of syft/client/api.py

    A shallow embedding of the client side of the API: the signing
    envelope ([SyftAPICall.sign], [SignedSyftAPICall.is_valid]), argument
    validation ([validate_callable_args_and_kwargs]), the invocation
    pipeline ([RemoteFunction.__call__]), the construction of remote
    callables ([generate_remote_function], [generate_remote_lib_function])
    and the proxy tree ([APIModule], [SyftAPI._add_route],
    [build_endpoint_tree]).

    Python dictionaries keep insertion order and the validation loop
    returns at the first offending keyword, so keyword maps are
    association lists.  Everything the module imports from elsewhere
    (typeguard, the codec, the credentials, the protocol migration, the
    warning prompt) is a field of a class of collaborators. *)

From Stdlib Require Import String Ascii List Bool Arith Lia.
From Stdlib.Strings Require Import Byte.
From Stdlib Require DecimalString.
Import ListNotations.
Set Warnings "-register-all".
Open Scope string_scope.
Open Scope list_scope.

(** ** Python dictionaries with string keys *)

Definition dict (V : Type) : Type := list (string * V).

Fixpoint dict_get {V : Type} (k : string) (d : dict V) : option V :=
  match d with
  | [] => None
  | (k', v) :: rest => if String.eqb k k' then Some v else dict_get k rest
  end.

(** [k in d] *)
Definition dict_mem {V : Type} (k : string) (d : dict V) : bool :=
  match dict_get k d with Some _ => true | None => false end.

(** [d[k] = v]: an existing key keeps its position, a new one goes last. *)
Fixpoint dict_set {V : Type} (k : string) (v : V) (d : dict V) : dict V :=
  match d with
  | [] => [(k, v)]
  | (k', v') :: rest =>
      if String.eqb k k' then (k, v) :: rest else (k', v') :: dict_set k v rest
  end.

(** [del d[k]] *)
Definition dict_del {V : Type} (k : string) (d : dict V) : dict V :=
  filter (fun kv => negb (String.eqb k (fst kv))) d.

(** [d.update(other)] *)
Definition dict_update {V : Type} (d other : dict V) : dict V :=
  fold_left (fun acc kv => dict_set (fst kv) (snd kv) acc) other d.

Definition dict_keys {V : Type} (d : dict V) : list string := map fst d.

(** ** Strings *)

(** [s.split(".")]: never empty, empty segments are kept. *)
Fixpoint split_dot_from (cur : string) (s : string) : list string :=
  match s with
  | EmptyString => [cur]
  | String c rest =>
      if Ascii.eqb c "."%char then cur :: split_dot_from "" rest
      else split_dot_from (cur ++ String c "") rest
  end.

Definition split_dot (s : string) : list string := split_dot_from "" s.

(** [repr] of a parameter name (an identifier, so no escapes) and of a
    list of them, as [f"{list(signature.parameters)}"] prints it. *)
Definition repr_str (s : string) : string := "'" ++ s ++ "'".

Definition repr_list (l : list string) : string :=
  "[" ++ String.concat ", " (map repr_str l) ++ "]".

(** ** Types, annotations and signatures *)

Record pyclass : Type := Class { cls_module : string; cls_name : string }.

Definition class_eqb (a b : pyclass) : bool :=
  String.eqb (cls_module a) (cls_module b) && String.eqb (cls_name a) (cls_name b).

Definition NoneType : pyclass := Class "builtins" "NoneType".
Definition str_class : pyclass := Class "builtins" "str".
Definition int_class : pyclass := Class "builtins" "int".
Definition bool_class : pyclass := Class "builtins" "bool".

(** What an annotation can be when it is not [inspect.Parameter.empty]:
    a class, a [typing._GenericAlias] (with its [__module__], its
    [__name__] as Python 3.10 and later define it, and its [__args__]),
    or a string left by [from __future__ import annotations]. *)
Inductive pytype : Type :=
| TClass (c : pyclass)
| TGenericAlias (module name : string) (args : list pytype)
| TStr (s : string).

(** [None] is [inspect.Parameter.empty]. *)
Definition annotation : Type := option pytype.

Inductive param_kind : Type :=
| POSITIONAL_ONLY | POSITIONAL_OR_KEYWORD | VAR_POSITIONAL | KEYWORD_ONLY | VAR_KEYWORD.

Record Param : Type := mkParam {
  param_name : string;
  param_kind_of : param_kind;
  param_annotation : annotation
}.

(** [signature.parameters] is an ordered mapping from name to parameter. *)
Record Signature : Type := mkSignature {
  parameters : list Param;
  return_annotation : annotation
}.

Definition parameter_names (sig : Signature) : list string :=
  map param_name (parameters sig).

(** [key in signature.parameters] *)
Definition has_parameter (key : string) (sig : Signature) : bool :=
  existsb (fun p => String.eqb key (param_name p)) (parameters sig).

(** [signature.parameters[key]] *)
Definition get_parameter (key : string) (sig : Signature) : option Param :=
  find (fun p => String.eqb key (param_name p)) (parameters sig).

(** [type(None) in t.__args__] *)
Definition is_NoneType (t : pytype) : bool :=
  match t with TClass c => class_eqb c NoneType | _ => false end.

(** [isinstance(t, _GenericAlias) and type(None) in t.__args__] *)
Definition optional_alternatives (t : pytype) : option (list pytype) :=
  match t with
  | TGenericAlias _ _ args => if existsb is_NoneType args then Some args else None
  | _ => None
  end.

(** [getattr(t, "__name__", str(t))] *)
Definition type_str (t : pytype) : string :=
  match t with
  | TClass c => cls_name c
  | TGenericAlias _ n _ => n
  | TStr s => s
  end.

(** [t.__module__] and [t.__name__]; a string has neither. *)
Definition type_module (t : pytype) : option string :=
  match t with
  | TClass c => Some (cls_module c)
  | TGenericAlias m _ _ => Some m
  | TStr _ => None
  end.

Definition type_name (t : pytype) : option string :=
  match t with
  | TClass c => Some (cls_name c)
  | TGenericAlias _ n _ => Some n
  | TStr _ => None
  end.

(** ** Responses and exceptions *)

(** service/response.py: [SyftError] is falsy, [SyftSuccess] truthy. *)
Inductive SyftResponseMessage : Type :=
| SyftError (message : string)
| SyftSuccess (message : string).

Definition response_bool (r : SyftResponseMessage) : bool :=
  match r with SyftError _ => false | SyftSuccess _ => true end.

(** The exceptions that leave the functions modelled here.
    [SyftAttributeError] is the dedicated class raised by [APIModule];
    [AttributeError], [IndexError] are the interpreter's own. *)
Inductive exn : Type :=
| Exception (message : string)
| SyftAttributeError (message : string)
| AttributeError
| IndexError.

Inductive outcome (A : Type) : Type :=
| Returned (a : A)
| Raised (e : exn).
Arguments Returned {A} a.
Arguments Raised {A} e.

(** The result of building a tree.  [Stopped]: the run leaves the model,
    because a name would shadow an attribute of the node object itself,
    or because the walk reaches something that is not a namespace (the
    code then fails on [_add_submodule] or on [path], or goes on through
    the attributes of that object). *)
Inductive built (A : Type) : Type :=
| Built (a : A)
| Failed (e : exn)
| Stopped.
Arguments Built {A} a.
Arguments Failed {A} e.
Arguments Stopped {A}.

(** A result of the validation: the validated arguments, a [SyftError]
    returned as a value, or an exception that escapes. *)
Inductive checked (A : Type) : Type :=
| Valid (a : A)
| Invalid (e : SyftResponseMessage)
| Fault (e : exn).
Arguments Valid {A} a.
Arguments Invalid {A} e.
Arguments Fault {A} e.

(** [types/uid.py]: a 128-bit identifier. *)
Definition UID : Type := nat.

(** ** The collaborators

    What api.py imports and calls but does not define.  [check_type] is
    typeguard's: [true] when it returns, [false] when it raises
    [TypeError].  [show] is [APIEndpointWarning.show], the answer of the
    caller to the confirmation prompt.  [class_attr] tells the names that
    [object.__getattribute__] finds on the class [APIModule] itself (its
    methods, those of [object], what the [serializable] decorator adds). *)
Class Collaborators : Type := {
  value : Type;
  type_of : value -> pyclass;
  str_of : value -> string;
  truthy : value -> bool;
  check_type : value -> pytype -> bool;
  issubclass_EmailStr : pyclass -> bool;
  index_syft_by_module_name : string -> pytype;
  autoreload_enabled : bool;
  migrate_args_and_kwargs :
    list value -> dict value -> option value -> bool -> list value * dict value;
  convert_to_pointers : UID -> list value -> dict value -> list value * dict value;
  signature_str : Signature -> string;
  signature_remove_self : Signature -> Signature;
  signature_remove_context : Signature -> Signature;
  APIEndpointWarning : Type;
  show : APIEndpointWarning -> bool;
  class_attr : string -> bool
}.

Section Validation.
Context {C : Collaborators}.

(** [issubclass(v, EmailStr)]: [None] is the [TypeError] of the
    interpreter when [v] is not a class. *)
Definition issubclass_of_EmailStr (v : pytype) : option bool :=
  match v with
  | TClass c => Some (issubclass_EmailStr c)
  | _ => None
  end.

(** Lines 1001-1011: the alternatives of an optional type for a keyword;
    each [check_type] has its own handler, one match is enough.  The
    [TypeError] of [issubclass] is outside the inner handler and ends the
    loop as a failure. *)
Fixpoint kwarg_matches_one (val : value) (alts : list pytype) : bool :=
  match alts with
  | [] => false
  | v :: rest =>
      match issubclass_of_EmailStr v with
      | None => false
      | Some email =>
          if check_type val (if email then TClass str_class else v) then true
          else kwarg_matches_one val rest
      end
  end.

(** Lines 998-1013: [true] when no [TypeError] reaches the handler. *)
Definition kwarg_type_ok (val : value) (t : annotation) : bool :=
  match t with
  | None => true
  | Some t =>
      match optional_alternatives t with
      | Some alts => kwarg_matches_one val alts
      | None => check_type val t
      end
  end.

(** Lines 1038-1042: the same loop for a positional argument; the
    [check_type] has no handler of its own and the [break] follows it, so
    only the first alternative is ever tried. *)
Definition arg_matches_first (val : value) (alts : list pytype) : bool :=
  match alts with
  | [] => true
  | v :: _ =>
      match issubclass_of_EmailStr v with
      | None => false
      | Some email => check_type val (if email then TClass str_class else v)
      end
  end.

(** Lines 1036-1044. *)
Definition arg_type_ok (val : value) (t : annotation) : bool :=
  match t with
  | None => true
  | Some t =>
      match optional_alternatives t with
      | Some alts => arg_matches_first val alts
      | None => check_type val t
      end
  end.

(** Lines 990-995: a string annotation is resolved for a keyword. *)
Definition kwarg_annotation (p : Param) : annotation :=
  match param_annotation p with
  | Some (TStr s) => Some (index_syft_by_module_name s)
  | a => a
  end.

Definition annotation_str (t : annotation) : string :=
  match t with Some t => type_str t | None => "" end.

Definition invalid_parameter (key : string) (sig : Signature) : SyftResponseMessage :=
  SyftError ("Invalid parameter: `" ++ key ++ "`. Valid Parameters: "
             ++ repr_list (parameter_names sig)).

Definition kwarg_type_error (key : string) (t : annotation) (val : value)
  : SyftResponseMessage :=
  SyftError ("`" ++ key ++ "` must be of type `" ++ annotation_str t
             ++ "` not `" ++ cls_name (type_of val) ++ "`").

Definition arg_type_error (t : annotation) (arg : value) : SyftResponseMessage :=
  SyftError ("Arg: " ++ str_of arg ++ " must be " ++ annotation_str t
             ++ " not " ++ cls_name (type_of arg)).

(** Lines 984-1021, the loop over [kwargs.items()]. *)
Fixpoint validate_kwargs (sig : Signature) (items : dict value)
    (_valid_kwargs : dict value) : checked (dict value) :=
  match items with
  | [] => Valid _valid_kwargs
  | (key, val) :: rest =>
      match get_parameter key sig with
      | None => Invalid (invalid_parameter key sig)
      | Some param =>
          let t := kwarg_annotation param in
          if kwarg_type_ok val t
          then validate_kwargs sig rest (dict_set key val _valid_kwargs)
          else Invalid (kwarg_type_error key t val)
      end
  end.

(** Lines 1047-1056: with autoreload on, a mismatch between two classes
    of the same module and name is ignored.  [and] is lazy: the
    attributes of [t] are read only as far as needed, and a string
    annotation has none. *)
Definition autoreload_ignores (t : pytype) (arg : value) : outcome bool :=
  if autoreload_enabled then
    match type_module t with
    | None => Raised AttributeError
    | Some m =>
        if String.eqb m (cls_module (type_of arg)) then
          match type_name t with
          | None => Raised AttributeError
          | Some n => Returned (String.eqb n (cls_name (type_of arg)))
          end
        else Returned false
    end
  else Returned false.

(** Lines 1030-1061, the loop over [zip(signature.parameters.items(), args)]. *)
Fixpoint validate_args (params : list Param) (args : list value)
    (_valid_kwargs : dict value) : checked (list value) :=
  match params, args with
  | param :: params', arg :: args' =>
      if dict_mem (param_name param) _valid_kwargs
      then validate_args params' args' _valid_kwargs
      else
        let t := param_annotation param in
        let continue :=
          match validate_args params' args' _valid_kwargs with
          | Valid _valid_args => Valid (arg :: _valid_args)
          | other => other
          end in
        if arg_type_ok arg t then continue
        else
          match t with
          | None => continue
          | Some ty =>
              match autoreload_ignores ty arg with
              | Raised e => Fault e
              | Returned true => continue
              | Returned false => Invalid (arg_type_error t arg)
              end
          end
  | _, _ => Valid []
  end.

Definition validate_callable_args_and_kwargs (args : list value)
    (kwargs : dict value) (sig : Signature) : checked (list value * dict value) :=
  let checked_kwargs :=
    if has_parameter "kwargs" sig then Valid kwargs
    else validate_kwargs sig kwargs [] in
  match checked_kwargs with
  | Invalid e => Invalid e
  | Fault e => Fault e
  | Valid _valid_kwargs =>
      if has_parameter "args" sig then Valid (args, _valid_kwargs)
      else
        match validate_args (parameters sig) args _valid_kwargs with
        | Valid _valid_args => Valid (_valid_args, _valid_kwargs)
        | Invalid e => Invalid e
        | Fault e => Fault e
        end
  end.

(** Every keyword of [items] is a parameter and passes its check. *)
Definition keywords_pass (sig : Signature) (items : dict value) : Prop :=
  forall k v, In (k, v) items ->
    exists p, get_parameter k sig = Some p /\ kwarg_type_ok v (kwarg_annotation p) = true.


End Validation.

(** ** Calls and the signing envelope *)

Definition bytes : Type := list Byte.byte.

Section Calls.
Context {C : Collaborators}.

Record SyftAPICall : Type := mkSyftAPICall {
  call_node_uid : UID;
  call_path : string;
  call_args : list value;
  call_kwargs : dict value;
  call_blocking : bool
}.

End Calls.

(** The credentials ([SyftSigningKey], [SyftVerifyKey], PyNaCl behind
    them) and the codec.  [verifies vk m s] is [true] when
    [vk.verify_key.verify(m, s)] returns and [false] when it raises
    [BadSignatureError]. *)
Class Credentials {C : Collaborators} : Type := {
  SyftSigningKey : Type;
  SyftVerifyKey : Type;
  verify_key : SyftSigningKey -> SyftVerifyKey;
  signature_of : SyftSigningKey -> bytes -> bytes;
  verifies : SyftVerifyKey -> bytes -> bytes -> bool;
  _serialize : SyftAPICall -> bytes
}.

Section Envelope.
Context {C : Collaborators} {K : Credentials}.

(** PyNaCl's [SigningKey.sign] returns the signature together with the
    message it signed. *)
Record SignedMessage : Type := mkSignedMessage {
  sm_signature : bytes;
  sm_message : bytes
}.

Definition signing_key_sign (sk : SyftSigningKey) (m : bytes) : SignedMessage :=
  {| sm_signature := signature_of sk m; sm_message := m |}.

Record SignedSyftAPICall : Type := mkSignedSyftAPICall {
  credentials : SyftVerifyKey;
  signature : bytes;
  serialized_message : bytes;
  cached_deseralized_message : option SyftAPICall
}.

(** [SyftAPICall.sign], lines 188-195. *)
Definition sign (self : SyftAPICall) (creds : SyftSigningKey) : SignedSyftAPICall :=
  let signed_message := signing_key_sign creds (_serialize self) in
  {| credentials := verify_key creds;
     serialized_message := sm_message signed_message;
     signature := sm_signature signed_message;
     cached_deseralized_message := None |}.

(** [SignedSyftAPICall.is_valid], lines 162-171. *)
Definition is_valid (self : SignedSyftAPICall) : SyftResponseMessage :=
  if verifies (credentials self) (serialized_message self) (signature self)
  then SyftSuccess "Credentials are valid"
  else SyftError "BadSignatureError".

(** An envelope with other payload bytes, or another verify key. *)
Definition with_serialized_message (e : SignedSyftAPICall) (b : bytes)
  : SignedSyftAPICall :=
  {| credentials := credentials e; signature := signature e;
     serialized_message := b;
     cached_deseralized_message := cached_deseralized_message e |}.



End Envelope.

(** ** Remote functions and the invocation pipeline *)

Section Pipeline.
Context {C : Collaborators}.

(** [RemoteFunction]; [rf_user_code] tells the subclass
    [RemoteUserCodeFunction], which differs in [prepare_args_and_kwargs]. *)
Record RemoteFunction : Type := mkRemoteFunction {
  rf_node_uid : UID;
  rf_signature : Signature;
  rf_path : string;
  rf_make_call : SyftAPICall -> value;
  rf_pre_kwargs : option (dict value);
  rf_communication_protocol : value;
  rf_warning : option APIEndpointWarning;
  rf_user_code : bool
}.

(** Lines 240-253 and, for the subclass, 303-326. *)
Definition prepare_args_and_kwargs (self : RemoteFunction) (args : list value)
    (kwargs : dict value) : checked (list value * dict value) :=
  match validate_callable_args_and_kwargs args kwargs (rf_signature self) with
  | Invalid e => Invalid e
  | Fault e => Fault e
  | Valid (args, kwargs) =>
      let '(args, kwargs) :=
        if rf_user_code self
        then convert_to_pointers (rf_node_uid self) args kwargs
        else (args, kwargs) in
      Valid (migrate_args_and_kwargs args kwargs
               (Some (rf_communication_protocol self)) false)
  end.

(** What the pipeline does that can be observed from outside, in order:
    the construction of the call, the warning shown with the answer it
    got, the dispatch through [make_call]. *)
Inductive event : Type :=
| NewCall (api_call : SyftAPICall)
| WarningShown (w : APIEndpointWarning) (allowed : bool)
| MakeCall (api_call : SyftAPICall).

(** What [__call__] returns: a [SyftError] of the validation, nothing,
    or the migrated result. *)
Inductive retval : Type :=
| RError (e : SyftResponseMessage)
| RNone
| RValue (v : value).

Definition reserved_blocking (sig : Signature) : exn :=
  Exception ("Signature " ++ signature_str sig
             ++ " can't have 'blocking' kwarg because it's reserved").

(** Lines 261-264: the reserved keyword is read and removed. *)
Definition blocking_of (kwargs : dict value) : bool :=
  match dict_get "blocking" kwargs with
  | Some b => truthy b
  | None => true
  end.

(** Lines 270-282: the pre-bound arguments are merged, then the protocol
    is attached, then the call is built.  An empty [pre_kwargs] is
    skipped by the test, and merging it would change nothing. *)
Definition make_api_call (self : RemoteFunction) (blocking : bool)
    (_valid_args : list value) (_valid_kwargs : dict value) : SyftAPICall :=
  let _valid_kwargs :=
    match rf_pre_kwargs self with
    | Some pre => dict_update _valid_kwargs pre
    | None => _valid_kwargs
    end in
  let _valid_kwargs :=
    dict_set "communication_protocol" (rf_communication_protocol self)
             _valid_kwargs in
  {| call_node_uid := rf_node_uid self;
     call_path := rf_path self;
     call_args := _valid_args;
     call_kwargs := _valid_kwargs;
     call_blocking := blocking |}.

(** Lines 287-293: the dispatch and the migration of its result. *)
Definition call_and_migrate (self : RemoteFunction) (api_call : SyftAPICall)
  : outcome retval :=
  let result := rf_make_call self api_call in
  match fst (migrate_args_and_kwargs [result] [] None true) with
  | result :: _ => Returned (RValue result)
  | [] => Raised IndexError
  end.

(** [RemoteFunction.__call__], lines 255-293. *)
Definition __call__ (self : RemoteFunction) (args : list value)
    (kwargs : dict value) : list event * outcome retval :=
  if has_parameter "blocking" (rf_signature self)
  then ([], Raised (reserved_blocking (rf_signature self)))
  else
    let blocking := blocking_of kwargs in
    let kwargs := dict_del "blocking" kwargs in
    match prepare_args_and_kwargs self args kwargs with
    | Invalid e => ([], Returned (RError e))
    | Fault e => ([], Raised e)
    | Valid (_valid_args, _valid_kwargs) =>
        let api_call := make_api_call self blocking _valid_args _valid_kwargs in
        match rf_warning self with
        | None =>
            ([NewCall api_call; MakeCall api_call], call_and_migrate self api_call)
        | Some w =>
            if show w
            then ([NewCall api_call; WarningShown w true; MakeCall api_call],
                  call_and_migrate self api_call)
            else ([NewCall api_call; WarningShown w false], Returned RNone)
        end
    end.

(** The closure that [generate_remote_lib_function] returns. *)
Record LibFunction : Type := mkLibFunction {
  lib_node_uid : UID;
  lib_signature : Signature;
  lib_path : string;
  lib_module_path : string;
  lib_make_call : SyftAPICall -> value;
  lib_communication_protocol : value;
  lib_pre_kwargs : option (dict value)
}.

(** [generate_remote_function], lines 349-388. *)
Definition generate_remote_function (node_uid : UID) (sig : Signature)
    (path : string) (make_call : SyftAPICall -> value)
    (pre_kwargs : option (dict value)) (communication_protocol : value)
    (warning : option APIEndpointWarning) : outcome RemoteFunction :=
  if has_parameter "blocking" sig then Raised (reserved_blocking sig)
  else
    let user_code :=
      String.eqb path "code.call" &&
      match pre_kwargs with Some pre => dict_mem "uid" pre | None => false end in
    Returned {| rf_node_uid := node_uid;
                rf_signature := sig;
                rf_path := path;
                rf_make_call := make_call;
                rf_pre_kwargs := pre_kwargs;
                rf_communication_protocol := communication_protocol;
                rf_warning := warning;
                rf_user_code := user_code |}.

Definition reserved_blocking_lib (sig : Signature) : exn :=
  Exception ("Signature " ++ signature_str sig
             ++ " can't have 'blocking' kwarg because its reserved").

(** [generate_remote_lib_function], lines 391-470: the check, then the
    closure. *)
Definition generate_remote_lib_function (node_uid : UID) (sig : Signature)
    (path module_path : string) (make_call : SyftAPICall -> value)
    (communication_protocol : value) (pre_kwargs : option (dict value))
  : outcome LibFunction :=
  if has_parameter "blocking" sig then Raised (reserved_blocking_lib sig)
  else
    Returned {| lib_node_uid := node_uid;
                lib_signature := sig;
                lib_path := path;
                lib_module_path := module_path;
                lib_make_call := make_call;
                lib_communication_protocol := communication_protocol;
                lib_pre_kwargs := pre_kwargs |}.

End Pipeline.

(** ** Endpoints and the proxy tree *)

Section ProxyTree.
Context {C : Collaborators}.

Record APIEndpoint : Type := mkAPIEndpoint {
  ep_id : UID;
  ep_service_path : string;
  ep_module_path : string;
  ep_name : string;
  ep_description : string;
  ep_doc_string : option string;
  ep_signature : Signature;
  ep_has_self : bool;
  ep_pre_kwargs : option (dict value);
  ep_warning : option APIEndpointWarning
}.

Record LibEndpoint : Type := mkLibEndpoint {
  lep_service_path : string;
  lep_module_path : string;
  lep_name : string;
  lep_description : string;
  lep_doc_string : option string;
  lep_signature : Signature;
  lep_has_self : bool;
  lep_pre_kwargs : option (dict value)
}.

Inductive Endpoint : Type :=
| IsAPIEndpoint (v : APIEndpoint)
| IsLibEndpoint (v : LibEndpoint).

Definition module_path (v : Endpoint) : string :=
  match v with IsAPIEndpoint e => ep_module_path e | IsLibEndpoint e => lep_module_path e end.

Definition name (v : Endpoint) : string :=
  match v with IsAPIEndpoint e => ep_name e | IsLibEndpoint e => lep_name e end.

Definition doc_string (v : Endpoint) : option string :=
  match v with IsAPIEndpoint e => ep_doc_string e | IsLibEndpoint e => lep_doc_string e end.

Definition endpoint_signature (v : Endpoint) : Signature :=
  match v with IsAPIEndpoint e => ep_signature e | IsLibEndpoint e => lep_signature e end.

Definition has_self (v : Endpoint) : bool :=
  match v with IsAPIEndpoint e => ep_has_self e | IsLibEndpoint e => lep_has_self e end.

Inductive EndpointFunction : Type :=
| RemoteFn (f : RemoteFunction)
| LibFn (f : LibFunction).

(** A namespace node with its [path], its [_modules] list and what
    [setattr] stored on it; a member is a namespace or an endpoint
    function with the [__doc__] it was given. *)
Inductive APIModule : Type :=
| mkAPIModule (path : string) (_modules : list string) (members : list (string * member))
with member : Type :=
| Submodule (m : APIModule)
| Method (f : EndpointFunction) (doc : option string).

Definition path (m : APIModule) : string :=
  match m with mkAPIModule p _ _ => p end.

Definition _modules (m : APIModule) : list string :=
  match m with mkAPIModule _ ms _ => ms end.

Definition members (m : APIModule) : dict member :=
  match m with mkAPIModule _ _ d => d end.

(** [APIModule(path=...)] *)
Definition new_APIModule (p : string) : APIModule := mkAPIModule p [] [].

(** What an attribute access on a namespace can find. *)
Inductive attribute : Type :=
| Registered (x : member)
| PathAttr (p : string)
| ModulesAttr (ms : list string)
| ClassAttr (name : string).

(** The names that belong to the node object itself. *)
Definition own_attr (attr_name : string) : bool :=
  String.eqb attr_name "path" || String.eqb attr_name "_modules" || class_attr attr_name.

(** [object.__getattribute__(self, name)]; [None] is [AttributeError]. *)
Definition object_getattribute (self : APIModule) (attr_name : string)
  : option attribute :=
  match dict_get attr_name (members self) with
  | Some x => Some (Registered x)
  | None =>
      if String.eqb attr_name "path" then Some (PathAttr (path self))
      else if String.eqb attr_name "_modules" then Some (ModulesAttr (_modules self))
      else if class_attr attr_name then Some (ClassAttr attr_name)
      else None
  end.

Definition unknown_member (self : APIModule) (attr_name : string) : exn :=
  SyftAttributeError
    ("'APIModule' api" ++ path self ++ " object has no submodule or method '"
     ++ attr_name
     ++ "', you may not have permission to access the module you are trying to access").

(** [APIModule.__getattribute__], lines 488-495. *)
Definition __getattribute__ (self : APIModule) (attr_name : string)
  : outcome attribute :=
  match object_getattribute self attr_name with
  | Some a => Returned a
  | None => Raised (unknown_member self attr_name)
  end.

(** [hasattr(self, name)]: the dedicated error is an [AttributeError],
    which [hasattr] turns into [False]. *)
Definition hasattr (self : APIModule) (attr_name : string) : bool :=
  match __getattribute__ self attr_name with
  | Returned _ => true
  | Raised _ => false
  end.

(** [APIModule._add_submodule], lines 482-486. *)
Definition _add_submodule (self : APIModule) (attr_name : string)
    (module_or_func : member) : built APIModule :=
  if own_attr attr_name then Stopped
  else Built (mkAPIModule (path self)
                          (_modules self ++ [attr_name])
                          (dict_set attr_name module_or_func (members self))).

(** The loop of [_add_route], lines 773-779.  The namespaces are
    mutated in place; each is referenced by its parent only, so the
    parent is rebuilt around the updated child. *)
Fixpoint add_route_walk (_self : APIModule) (mods : list string)
    (_last_module : string) (endpoint_method : member) : built APIModule :=
  match mods with
  | [] => _add_submodule _self _last_module endpoint_method
  | module :: rest =>
      let ensured :=
        if hasattr _self module then Built _self
        else
          let submodule_path := (path _self ++ "." ++ module)%string in
          _add_submodule _self module (Submodule (new_APIModule submodule_path)) in
      match ensured with
      | Built _self1 =>
          match __getattribute__ _self1 module with
          | Returned (Registered (Submodule child)) =>
              match add_route_walk child rest _last_module endpoint_method with
              | Built child' =>
                  Built (mkAPIModule (path _self1) (_modules _self1)
                           (dict_set module (Submodule child') (members _self1)))
              | other => other
              end
          | _ => Stopped
          end
      | other => other
      end
  end.

(** [endpoint.module_path.split(".")[:-1]] *)
Definition route_modules (v : Endpoint) : list string :=
  removelast (split_dot (module_path v)).

(** [SyftAPI._add_route], lines 763-779. *)
Definition _add_route (api_module : APIModule) (endpoint : Endpoint)
    (endpoint_method : member) : built APIModule :=
  add_route_walk api_module (route_modules endpoint) (name endpoint) endpoint_method.

(** Lines 787-812: the callable of one endpoint. *)
Definition endpoint_function (node_uid : UID) (make_call : SyftAPICall -> value)
    (communication_protocol : value) (v : Endpoint) : outcome EndpointFunction :=
  let sig := endpoint_signature v in
  let sig := if has_self v then sig else signature_remove_self sig in
  let sig := signature_remove_context sig in
  match v with
  | IsAPIEndpoint e =>
      match generate_remote_function node_uid sig (ep_service_path e) make_call
              (ep_pre_kwargs e) communication_protocol (ep_warning e) with
      | Returned f => Returned (RemoteFn f)
      | Raised ex => Raised ex
      end
  | IsLibEndpoint e =>
      match generate_remote_lib_function node_uid sig (lep_service_path e)
              (lep_module_path e) make_call communication_protocol
              (lep_pre_kwargs e) with
      | Returned f => Returned (LibFn f)
      | Raised ex => Raised ex
      end
  end.

(** [build_endpoint_tree], lines 782-816: the loop over
    [endpoints.items()], from the tree built so far. *)
Fixpoint build_from (node_uid : UID) (make_call : SyftAPICall -> value)
    (communication_protocol : value) (api_module : APIModule)
    (endpoints : dict Endpoint) : built APIModule :=
  match endpoints with
  | [] => Built api_module
  | (_, v) :: rest =>
      match endpoint_function node_uid make_call communication_protocol v with
      | Raised ex => Failed ex
      | Returned f =>
          match _add_route api_module v (Method f (doc_string v)) with
          | Built api_module' =>
              build_from node_uid make_call communication_protocol api_module' rest
          | other => other
          end
      end
  end.

Definition build_endpoint_tree (node_uid : UID) (make_call : SyftAPICall -> value)
    (endpoints : dict Endpoint) (communication_protocol : value) : built APIModule :=
  build_from node_uid make_call communication_protocol (new_APIModule "") endpoints.

(** Chained attribute access [root.a.b.c] along registered members. *)
Fixpoint resolve (x : member) (route : list string) : option member :=
  match route with
  | [] => Some x
  | attr_name :: rest =>
      match x with
      | Submodule m =>
          match dict_get attr_name (members m) with
          | Some y => resolve y rest
          | None => None
          end
      | Method _ _ => None
      end
  end.

(** Where an endpoint goes: the module path without its last segment,
    then the display name. *)
Definition leaf_route (v : Endpoint) : list string := route_modules v ++ [name v].

(** The path of the namespace reached by a route from the root:
    [.a.b] for [a; b]. *)
Fixpoint dotted (route : list string) : string :=
  match route with
  | [] => ""
  | attr_name :: rest => "." ++ attr_name ++ dotted rest
  end.

(** [p] is the beginning of [route]. *)
Fixpoint is_prefixb (p route : list string) : bool :=
  match p, route with
  | [], _ => true
  | a :: p', b :: route' => String.eqb a b && is_prefixb p' route'
  | _ :: _, [] => false
  end.

(** No route is the beginning of another one, equal routes included. *)
Fixpoint prefix_free (routes : list (list string)) : bool :=
  match routes with
  | [] => true
  | r :: rest =>
      forallb (fun r' => negb (is_prefixb r r') && negb (is_prefixb r' r)) rest
      && prefix_free rest
  end.

(** The signature that [build_endpoint_tree] hands to the generators. *)
Definition callable_signature (v : Endpoint) : Signature :=
  signature_remove_context
    (if has_self v then endpoint_signature v
     else signature_remove_self (endpoint_signature v)).

(** Where the walk goes from a namespace for one segment: into the
    registered namespace, or into a new one when the name is unknown. *)
Definition descend (s : APIModule) (seg : string) : option APIModule :=
  match dict_get seg (members s) with
  | Some (Submodule child) => Some child
  | Some (Method _ _) => None
  | None => if own_attr seg then None else Some (new_APIModule (path s ++ "." ++ seg))
  end.

(** [s'] is [s] with the member [k] bound to [x]. *)
Definition rebinds (s s' : APIModule) (k : string) (x : member) : Prop :=
  path s' = path s
  /\ dict_get k (members s') = Some x
  /\ forall k', k' <> k -> dict_get k' (members s') = dict_get k' (members s).

(** Every namespace has the path of its route. *)
Definition well_pathed (s : APIModule) : Prop :=
  forall r m, resolve (Submodule s) r = Some (Submodule m) ->
    path m = (path s ++ dotted r)%string.

(** An endpoint is placed when its callable is where its route says. *)
Definition placed (node_uid : UID) (make_call : SyftAPICall -> value)
    (proto : value) (tree : APIModule) (v : Endpoint) : Prop :=
  exists f,
    endpoint_function node_uid make_call proto v = Returned f
    /\ resolve (Submodule tree) (leaf_route v) = Some (Method f (doc_string v)).

(** What holds of the tree after each turn of the loop. *)
Record invariant (node_uid : UID) (make_call : SyftAPICall -> value)
    (proto : value) (tree : APIModule) (done : dict Endpoint) : Prop := {
  inv_placed : forall k v, In (k, v) done -> placed node_uid make_call proto tree v;
  inv_methods : forall r f d,
      resolve (Submodule tree) r = Some (Method f d) ->
      exists k v, In (k, v) done /\ leaf_route v = r;
  inv_paths : well_pathed tree;
  inv_root : path tree = ""
}.

End ProxyTree.

(** ** A small instance of the collaborators

    Four kinds of values, [isinstance] for the check of a class, any
    alternative for the check of a union, identity migrations, and a
    signature scheme whose signature is the key followed by the message.
    It is used to run the definitions on concrete calls. *)

Module Example.

Inductive pyvalue : Type :=
| VNone
| VInt (n : nat)
| VStr (s : string)
| VBool (b : bool).

Definition pytype_of (v : pyvalue) : pyclass :=
  match v with
  | VNone => NoneType
  | VInt _ => int_class
  | VStr _ => str_class
  | VBool _ => bool_class
  end.

Definition isinstance (v : pyvalue) (c : pyclass) : bool :=
  class_eqb (pytype_of v) c
  || match v with VBool _ => class_eqb c int_class | _ => false end.

(** typeguard on these values: a union matches by any alternative, no
    value here is an instance of another generic, and a bare string is
    not checked. *)
Definition check (v : pyvalue) (t : pytype) : bool :=
  match t with
  | TClass c => isinstance v c
  | TGenericAlias _ n args =>
      (String.eqb n "Optional" || String.eqb n "Union")
      && existsb (fun a => match a with TClass c => isinstance v c | _ => false end) args
  | TStr _ => true
  end.

Definition pystr (v : pyvalue) : string :=
  match v with
  | VNone => "None"
  | VInt n => DecimalString.NilZero.string_of_uint (Nat.to_uint n)
  | VStr s => s
  | VBool true => "True"
  | VBool false => "False"
  end.

Definition pybool (v : pyvalue) : bool :=
  match v with
  | VNone => false
  | VInt n => negb (Nat.eqb n 0)
  | VStr s => negb (String.eqb s "")
  | VBool b => b
  end.

Definition EmailStr : pyclass := Class "pydantic.networks" "EmailStr".

Definition remove_parameter (n : string) (sig : Signature) : Signature :=
  {| parameters := filter (fun p => negb (String.eqb n (param_name p))) (parameters sig);
     return_annotation := return_annotation sig |}.

#[global] Instance collaborators : Collaborators :=
  {| value := pyvalue;
     type_of := pytype_of;
     str_of := pystr;
     truthy := pybool;
     check_type := check;
     issubclass_EmailStr := fun c => class_eqb c EmailStr;
     index_syft_by_module_name := fun s => TClass (Class "syft" s);
     autoreload_enabled := false;
     migrate_args_and_kwargs := fun args kwargs _ _ => (args, kwargs);
     convert_to_pointers := fun _ args kwargs => (args, kwargs);
     signature_str := fun sig =>
       ("(" ++ String.concat ", " (parameter_names sig) ++ ")")%string;
     signature_remove_self := remove_parameter "self";
     signature_remove_context := remove_parameter "context";
     APIEndpointWarning := bool;
     show := fun answer => answer;
     class_attr := fun n =>
       existsb (String.eqb n)
         ["_add_submodule"; "__getattribute__"; "__getitem__"; "_repr_html_";
          "__init__"; "__class__"; "__dict__"; "__doc__"; "__module__"] |}.

Definition bytes_eqb (a b : bytes) : bool :=
  if list_eq_dec Byte.byte_eq_dec a b then true else false.

#[global] Instance keys : Credentials :=
  {| SyftSigningKey := Byte.byte;
     SyftVerifyKey := Byte.byte;
     verify_key := fun sk => sk;
     signature_of := fun sk m => sk :: m;
     verifies := fun vk m s => bytes_eqb s (vk :: m);
     _serialize := fun c => list_byte_of_string (call_path c) |}.

Definition Optional (t : pytype) : pytype :=
  TGenericAlias "typing" "Optional" [t; TClass NoneType].

Definition param (n : string) (t : pytype) : Param :=
  mkParam n POSITIONAL_OR_KEYWORD (Some t).

(** [f(x: int)] *)
Definition f_x_int : Signature := mkSignature [param "x" (TClass int_class)] None.

(** [f(x: Optional[int])] *)
Definition f_x_optional_int : Signature :=
  mkSignature [param "x" (Optional (TClass int_class))] None.

(** [f(x: int, **kwargs)] *)
Definition f_x_int_kwargs : Signature :=
  mkSignature [param "x" (TClass int_class); mkParam "kwargs" VAR_KEYWORD None] None.

(** [f(x: int, y: str)] *)
Definition f_x_int_y_str : Signature :=
  mkSignature [param "x" (TClass int_class); param "y" (TClass str_class)] None.

(** [f(x: int, blocking: bool)] *)
Definition f_blocking : Signature :=
  mkSignature [param "x" (TClass int_class); param "blocking" (TClass bool_class)] None.

(** [f(communication_protocol: int)] *)
Definition f_protocol : Signature :=
  mkSignature [param "communication_protocol" (TClass int_class)] None.

(** [f(uid: int)] *)
Definition f_uid : Signature := mkSignature [param "uid" (TClass int_class)] None.

(** A transport that answers with the path it was called on. *)
Definition send (api_call : SyftAPICall) : pyvalue := VStr (call_path api_call).

Definition remote (sig : Signature) (pre : option (dict pyvalue))
    (w : option bool) : RemoteFunction :=
  {| rf_node_uid := 7;
     rf_signature := sig;
     rf_path := "user.create";
     rf_make_call := send;
     rf_pre_kwargs := pre;
     rf_communication_protocol := VInt 3;
     rf_warning := w;
     rf_user_code := false |}.

(** The call that [remote] builds from validated arguments. *)
Definition call_of (args : list pyvalue) (kwargs : dict pyvalue) (blocking : bool)
  : SyftAPICall :=
  @mkSyftAPICall collaborators 7 "user.create" args kwargs blocking.

Definition a_call : SyftAPICall := call_of [] [] true.

Definition a_key : Byte.byte := Byte.x2a.

(** An endpoint of a service, as [SyftAPI.for_user] builds it. *)
Definition service (service_path public_name : string) (sig : Signature) : Endpoint :=
  IsAPIEndpoint
    {| ep_id := 1;
       ep_service_path := service_path;
       ep_module_path := service_path;
       ep_name := public_name;
       ep_description := "";
       ep_doc_string := None;
       ep_signature := sig;
       ep_has_self := false;
       ep_pre_kwargs := None;
       ep_warning := None |}.

(** The endpoint of a custom function of the user. *)
Definition user_code (service_func_name : string) (uid : nat) (sig : Signature)
  : Endpoint :=
  IsAPIEndpoint
    {| ep_id := 2;
       ep_service_path := "code.call";
       ep_module_path := "code.call";
       ep_name := service_func_name;
       ep_description := "";
       ep_doc_string := Some ("Users custom func " ++ service_func_name)%string;
       ep_signature := sig;
       ep_has_self := false;
       ep_pre_kwargs := Some [("uid", VInt uid)];
       ep_warning := None |}.

Definition some_endpoints : dict Endpoint :=
  [("user.create", service "user.create" "create" f_x_int);
   ("dataset.get_all", service "dataset.get_all" "get_all" f_x_optional_int);
   ("code.call_my_func", user_code "my_func" 42 f_x_int)].

(** The tree with the single callable [f] at [code.get_all], registered
    twice. *)
Definition clash_tree (f : RemoteFunction) : APIModule :=
  mkAPIModule "" ["code"]
    [("code",
      Submodule
        (mkAPIModule ".code" ["get_all"; "get_all"]
           [("get_all", Method (RemoteFn f) (Some "Users custom func get_all"))]))].

(** A custom function named as a method of the code service. *)
Definition clashing_endpoints : dict Endpoint :=
  [("code.get_all", service "code.get_all" "get_all" f_x_optional_int);
   ("code.call_get_all", user_code "get_all" 42 f_x_int)].

End Example.

(** * The rest of the client

    The session registry, the cached payload of an envelope, the
    signing and transport path of a session, the jobs of a user-code
    function and the identity of a node. *)

(** What these parts call and api.py does not define: the equality and
    hash of verify keys, the decoder of the codec, the [data] of a
    decoded reply, the test [isinstance(result, OkErr)] with the content
    of the result, the test of [update_api] for a request that changes a
    user-code status, and [is None].  For the downgrade of signatures:
    the versions that a protocol lists for a canonical name,
    [canonical_name c], which is the [__canonical_name__] of [c] when
    [c] is a subclass of [SyftBaseObject], and [downgraded_class], the
    class that the migration registry holds for the highest of these
    versions (lines 558-565; it raises when there is none). *)
Class Runtime {C : Collaborators} {K : Credentials} : Type := {
  verify_key_eqb : SyftVerifyKey -> SyftVerifyKey -> bool;
  hash_name_key : string -> SyftVerifyKey -> nat;
  _deserialize : bytes -> SyftAPICall;
  message_data : SignedSyftAPICall -> value;
  as_OkErr : value -> option (value + value);
  changes_user_code_status : value -> bool;
  is_None : value -> bool;
  versions : Type;
  canonical_name : pyclass -> option string;
  downgraded_class : string -> versions -> outcome pytype
}.

(** ** The payload of an envelope, the session and its transport *)

Section Session.
Context {C : Collaborators} {K : Credentials} {R : Runtime}.

(** [SignedSyftAPICall.message], lines 149-160: the payload is decoded
    on the first access and kept; the result is the payload and the
    envelope as the access leaves it. *)
Definition message (self : SignedSyftAPICall) : SyftAPICall * SignedSyftAPICall :=
  match cached_deseralized_message self with
  | Some m => (m, self)
  | None =>
      let m := _deserialize (serialized_message self) in
      (m, {| credentials := credentials self;
             signature := signature self;
             serialized_message := serialized_message self;
             cached_deseralized_message := Some m |})
  end.

(** What a connection hands back. *)
Inductive reply : Type :=
| Signed (signed_result : SignedSyftAPICall)
| Unsigned (result : value).

(** [debox_signed_syftapicall_response], lines 509-517. *)
Definition debox_signed_syftapicall_response (signed_result : reply)
  : SyftResponseMessage + value :=
  match signed_result with
  | Unsigned _ => inl (SyftError "The result is not signed")
  | Signed e =>
      if negb (response_bool (is_valid e))
      then inl (SyftError "The result signature is invalid")
      else inr (message_data e)
  end.

(** The fields of [SyftAPI] that the signing and transport path and the
    proxy trees use; [api_refresh_api_callback] tells whether a callback
    is set. *)
Record SyftAPI : Type := mkSyftAPI {
  api_connection : option (SignedSyftAPICall -> reply);
  api_node_uid : UID;
  api_endpoints : dict Endpoint;
  api_lib_endpoints : option (dict Endpoint);
  api_module : option APIModule;
  api_libs : option APIModule;
  api_signing_key : option SyftSigningKey;
  api_refresh_api_callback : bool;
  api_communication_protocol : value
}.

(** What the transport path does that can be observed: an envelope sent
    over the connection, the refresh callback called. *)
Inductive api_event : Type :=
| Sent (signed_call : SignedSyftAPICall)
| Refreshed.

(** [SyftAPI.update_api], lines 751-761: whether the callback is called. *)
Definition update_api (self : SyftAPI) (api_call_result : value) : bool :=
  changes_user_code_status api_call_result && api_refresh_api_callback self.

(** [SyftAPI.make_call], lines 732-749.  Without a signing key,
    [sign] fails on [credentials.signing_key]. *)
Definition SyftAPI_make_call (self : SyftAPI) (api_call : SyftAPICall)
  : list api_event * outcome retval :=
  match api_signing_key self with
  | None => ([], Raised AttributeError)
  | Some key =>
      let signed_call := sign api_call key in
      match api_connection self with
      | None => ([], Returned (RError (SyftError "API connection is None")))
      | Some connection_make_call =>
          let signed_result := connection_make_call signed_call in
          match debox_signed_syftapicall_response signed_result with
          | inl e => ([Sent signed_call], Returned (RError e))
          | inr result =>
              match as_OkErr result with
              | Some (inl res) =>
                  (Sent signed_call :: (if update_api self res then [Refreshed] else []),
                   Returned (RValue res))
              | Some (inr err) => ([Sent signed_call], Returned (RValue err))
              | None => ([Sent signed_call], Returned (RValue result))
              end
          end
      end
  end.

(** [RemoteUserCodeFunction.user_code_id], lines 328-333; [None] is the
    [None] of [dict.get] and of the empty [pre_kwargs]. *)
Definition user_code_id (self : RemoteFunction) : option value :=
  match rf_pre_kwargs self with
  | Some ((_ :: _) as pre) => dict_get "uid" pre
  | _ => None
  end.

Definition jobs_call (self : RemoteFunction) (uid : value) : SyftAPICall :=
  {| call_node_uid := rf_node_uid self;
     call_path := "job.get_by_user_code_id";
     call_args := [uid];
     call_kwargs := [];
     call_blocking := true |}.

(** [RemoteUserCodeFunction.jobs], lines 335-346. *)
Definition jobs (self : RemoteFunction) : list event * retval :=
  let missing := ([], RError (SyftError "Could not find user_code_id")) in
  match user_code_id self with
  | None => missing
  | Some uid =>
      if is_None uid then missing
      else ([NewCall (jobs_call self uid); MakeCall (jobs_call self uid)],
            RValue (rf_make_call self (jobs_call self uid)))
  end.

(** [NodeIdentity], lines 937-971. *)
Record NodeIdentity : Type := mkNodeIdentity {
  ni_node_name : string;
  ni_node_id : UID;
  ni_verify_key : SyftVerifyKey
}.

(** [NodeIdentity.__eq__]; [None] is an object of another class. *)
Definition NodeIdentity_eq (self : NodeIdentity) (other : option NodeIdentity) : bool :=
  match other with
  | None => false
  | Some other =>
      String.eqb (ni_node_name self) (ni_node_name other)
      && verify_key_eqb (ni_verify_key self) (ni_verify_key other)
      && Nat.eqb (ni_node_id self) (ni_node_id other)
  end.

(** [NodeIdentity.__hash__] *)
Definition NodeIdentity_hash (self : NodeIdentity) : nat :=
  hash_name_key (ni_node_name self) (ni_verify_key self).

End Session.

(** ** The session registry *)

Section Registry.
Context {C : Collaborators} {K : Credentials} {R : Runtime}.

(** The keys of [__api_registry__]: a node and a verify key. *)
Definition registry_key : Type := (UID * SyftVerifyKey)%type.

Definition registry_key_eqb (a b : registry_key) : bool :=
  Nat.eqb (fst a) (fst b) && verify_key_eqb (snd a) (snd b).

(** The [OrderedDict] of the class, oldest key first. *)
Definition api_registry : Type := list (registry_key * SyftAPI).

(** [registry[key] = api]: a known key keeps its place. *)
Fixpoint registry_set (key : registry_key) (api : SyftAPI) (r : api_registry)
  : api_registry :=
  match r with
  | [] => [(key, api)]
  | (key', api') :: rest =>
      if registry_key_eqb key key' then (key, api) :: rest
      else (key', api') :: registry_set key api rest
  end.

(** [APIRegistry.set_api_for], lines 72-87, on a [UID] and a verify key
    (strings are first converted by [from_string]). *)
Definition set_api_for (r : api_registry) (node_uid : UID)
    (user_verify_key : SyftVerifyKey) (api : SyftAPI) : api_registry :=
  registry_set (node_uid, user_verify_key) api r.

(** [APIRegistry.api_for], lines 89-92: [registry.get(key, None)]. *)
Fixpoint api_for (r : api_registry) (node_uid : UID)
    (user_verify_key : SyftVerifyKey) : option SyftAPI :=
  match r with
  | [] => None
  | (key', api') :: rest =>
      if registry_key_eqb (node_uid, user_verify_key) key' then Some api'
      else api_for rest node_uid user_verify_key
  end.

(** [APIRegistry.get_all_api], lines 94-96. *)
Definition get_all_api (r : api_registry) : list SyftAPI := map snd r.

(** [APIRegistry.get_by_recent_node_uid], lines 98-103: the items are
    scanned from the newest key. *)
(** The test of the loop in [get_by_recent_node_uid]: [key[0] == node_uid]. *)
Definition of_node (n : UID) (item : registry_key * SyftAPI) : bool :=
  Nat.eqb (fst (fst item)) n.

Definition get_by_recent_node_uid (r : api_registry) (node_uid : UID)
  : option SyftAPI :=
  match find (fun item => Nat.eqb (fst (fst item)) node_uid) (rev r) with
  | Some (_, api) => Some api
  | None => None
  end.

End Registry.

(** ** The proxy trees of a session *)

Section SessionTrees.
Context {C : Collaborators} {K : Credentials} {R : Runtime}.

(** [SyftAPI.generate_endpoints], lines 781-824; [make_call] is the
    bound method [self.make_call] as the callables keep it. *)
Definition generate_endpoints (self : SyftAPI) (make_call : SyftAPICall -> value)
  : built SyftAPI :=
  let with_libs :=
    match api_lib_endpoints self with
    | Some lib_endpoints =>
        match build_endpoint_tree (api_node_uid self) make_call lib_endpoints
                (api_communication_protocol self) with
        | Built libs => Built (Some libs)
        | Failed e => Failed e
        | Stopped => Stopped
        end
    | None => Built (api_libs self)
    end in
  match with_libs with
  | Built libs =>
      match build_endpoint_tree (api_node_uid self) make_call (api_endpoints self)
              (api_communication_protocol self) with
      | Built tree =>
          Built {| api_connection := api_connection self;
                   api_node_uid := api_node_uid self;
                   api_endpoints := api_endpoints self;
                   api_lib_endpoints := api_lib_endpoints self;
                   api_module := Some tree;
                   api_libs := libs;
                   api_signing_key := api_signing_key self;
                   api_refresh_api_callback := api_refresh_api_callback self;
                   api_communication_protocol := api_communication_protocol self |}
      | Failed e => Failed e
      | Stopped => Stopped
      end
  | Failed e => Failed e
  | Stopped => Stopped
  end.

(** [SyftAPI.services], lines 826-830: the tree and the session as the
    access leaves it. *)
Definition services (self : SyftAPI) (make_call : SyftAPICall -> value)
  : built (option APIModule * SyftAPI) :=
  match api_module self with
  | Some tree => Built (Some tree, self)
  | None =>
      match generate_endpoints self make_call with
      | Built self' => Built (api_module self', self')
      | Failed e => Failed e
      | Stopped => Stopped
      end
  end.

(** [SyftAPI.lib], lines 832-836. *)
Definition lib (self : SyftAPI) (make_call : SyftAPICall -> value)
  : built (option APIModule * SyftAPI) :=
  match api_libs self with
  | Some tree => Built (Some tree, self)
  | None =>
      match generate_endpoints self make_call with
      | Built self' => Built (api_libs self', self')
      | Failed e => Failed e
      | Stopped => Stopped
      end
  end.

(** [SyftAPI.has_service], lines 838-839.  [services] is never [None]
    here, since [generate_endpoints] sets [api_module]. *)
Definition has_service (self : SyftAPI) (make_call : SyftAPICall -> value)
    (service_name : string) : built (bool * SyftAPI) :=
  match services self make_call with
  | Built (Some tree, self') => Built (hasattr tree service_name, self')
  | Built (None, _) => Stopped
  | Failed e => Failed e
  | Stopped => Stopped
  end.

(** ** The downgrade of signatures *)

(** Lines 569-572, the loop over [args]: the first exception ends it. *)
Definition migrate_each (migrate : pytype -> outcome pytype)
  : list pytype -> outcome (list pytype) :=
  fix each (args : list pytype) : outcome (list pytype) :=
    match args with
    | [] => Returned []
    | arg :: rest =>
        match migrate arg with
        | Raised e => Raised e
        | Returned migrated_annotation =>
            match each rest with
            | Raised e => Raised e
            | Returned migrated_annotations =>
                Returned (migrated_annotation :: migrated_annotations)
            end
        end
    end.

(** [unwrap_and_migrate_annotation], lines 549-581, on a class, an alias
    of [typing] (rebuilt by [copy_with]) or a string. *)
Fixpoint unwrap_and_migrate_type (object_versions : dict versions) (t : pytype)
  : outcome pytype :=
  match t with
  | TClass c =>
      match canonical_name c with
      | Some n =>
          match dict_get n object_versions with
          | Some vs => downgraded_class n vs
          | None => Returned t
          end
      | None => Returned t
      end
  | TStr _ => Returned t
  | TGenericAlias m n args =>
      match args with
      | [] => Returned t
      | _ =>
          match migrate_each (unwrap_and_migrate_type object_versions) args with
          | Returned args' => Returned (TGenericAlias m n args')
          | Raised e => Raised e
          end
      end
  end.

(** The same on an annotation; [inspect.Parameter.empty] is a class
    that is no [SyftBaseObject]. *)
Definition unwrap_and_migrate_annotation (a : annotation)
    (object_versions : dict versions) : outcome annotation :=
  match a with
  | None => Returned None
  | Some t =>
      match unwrap_and_migrate_type object_versions t with
      | Returned t' => Returned (Some t')
      | Raised e => Raised e
      end
  end.

(** Lines 521-532, the loop over the parameters: each keeps its name,
    its kind and its default (which the model of a parameter does not
    hold) and gets the migrated annotation. *)
Fixpoint migrate_parameters (object_versions : dict versions) (ps : list Param)
  : outcome (list Param) :=
  match ps with
  | [] => Returned []
  | parameter :: rest =>
      match unwrap_and_migrate_annotation (param_annotation parameter)
              object_versions with
      | Raised e => Raised e
      | Returned a =>
          match migrate_parameters object_versions rest with
          | Raised e => Raised e
          | Returned migrated_parameters =>
              Returned (mkParam (param_name parameter) (param_kind_of parameter) a
                        :: migrated_parameters)
          end
      end
  end.

(** [downgrade_signature], lines 520-546. *)
Definition downgrade_signature (sig : Signature) (object_versions : dict versions)
  : outcome Signature :=
  match migrate_parameters object_versions (parameters sig) with
  | Raised e => Raised e
  | Returned migrated_parameters =>
      match unwrap_and_migrate_annotation (return_annotation sig) object_versions with
      | Raised e => Raised e
      | Returned migrated_return_annotation =>
          Returned (mkSignature migrated_parameters migrated_return_annotation)
      end
  end.




End SessionTrees.

(** ** What a namespace lists *)

Section Listing.
Context {C : Collaborators}.

(** The names listed in [_modules] are the names of the members. *)
Definition lists_its_members (s : APIModule) : Prop :=
  forall k, In k (_modules s) <-> dict_mem k (members s) = true.

End Listing.

(** ** The rendering of a signature *)

(** [str(param)] and [inspect.formatannotation]. *)
Class Rendering : Type := {
  param_str : Param -> string;
  formatannotation : pytype -> string
}.

Section Render.
Context {P : Rendering}.

(** What the loop of [_render_signature] appends to [result]: the two
    markers and the parameters. *)
Inductive entry : Type :=
| Slash
| Star
| Shown (param : Param).

Definition entry_str (e : entry) : string :=
  match e with
  | Slash => "/"
  | Star => "*"
  | Shown param => param_str param
  end.

(** Lines 871-886, from the values of [pos_only] and [kw_only]. *)
Fixpoint render_loop (params : list Param) (pos_only kw_only : bool) : list entry :=
  match params with
  | [] => if pos_only then [Slash] else []
  | param :: rest =>
      let '(slash, pos_only) :=
        match param_kind_of param with
        | POSITIONAL_ONLY => ([], true)
        | _ => if pos_only then ([Slash], false) else ([], pos_only)
        end in
      let '(star, kw_only) :=
        match param_kind_of param with
        | VAR_POSITIONAL => ([], false)
        | KEYWORD_ONLY => if kw_only then ([Star], false) else ([], kw_only)
        | _ => ([], kw_only)
        end in
      slash ++ star ++ Shown param :: render_loop rest pos_only kw_only
  end.

Definition newline : string := String (Ascii.ascii_of_nat 10) "".

(** [_render_signature], lines 862-900; lengths are counted on ASCII
    text. *)
Definition _render_signature (obj_signature : Signature) (obj_name : string) : string :=
  let result := map entry_str (render_loop (parameters obj_signature) false true) in
  let rendered :=
    if Nat.ltb 75 (String.length obj_name
                   + list_sum (map (fun r => String.length r + 2) result))
    then (obj_name ++ "(" ++ newline
          ++ String.concat "" (map (fun r => "    " ++ r ++ "," ++ newline) result)
          ++ ")")%string
    else (obj_name ++ "(" ++ String.concat ", " result ++ ")")%string in
  match return_annotation obj_signature with
  | None => rendered
  | Some t => (rendered ++ " -> " ++ formatannotation t)%string
  end.

(** The parameters among the entries, and the number of an entry. *)
Definition shown (entries : list entry) : list Param :=
  flat_map (fun e => match e with Shown param => [param] | _ => [] end) entries.

Definition is_star (e : entry) : bool :=
  match e with Star => true | _ => false end.

Definition is_slash (e : entry) : bool :=
  match e with Slash => true | _ => false end.

Definition is_positional_only (param : Param) : bool :=
  match param_kind_of param with POSITIONAL_ONLY => true | _ => false end.

End Render.

(** * service/response.py *)

Section Responses.

(** The classes of the file. *)
Inductive response_class : Type :=
| IsSyftResponseMessage
| IsSyftError
| IsSyftSuccess
| IsSyftNotReady
| IsSyftWarning
| IsSyftInfo.

(** A message with its class; [_bool] is the default of the class. *)
Record response : Type := mkResponse {
  resp_class : response_class;
  resp_message : string;
  require_api_update : bool
}.

Definition _bool (r : response) : bool :=
  match resp_class r with
  | IsSyftResponseMessage | IsSyftSuccess | IsSyftWarning => true
  | IsSyftError | IsSyftNotReady | IsSyftInfo => false
  end.

(** [__bool__]: [SyftError] and its subclass answer [False], the others
    answer [_bool]. *)
Definition response_truth (r : response) : bool :=
  match resp_class r with
  | IsSyftError | IsSyftNotReady => false
  | _ => _bool r
  end.

(** [is_err] and [is_ok]: only [SyftError] and [SyftSuccess] override
    the base class. *)
Definition is_err (r : response) : bool :=
  match resp_class r with
  | IsSyftError | IsSyftNotReady => true
  | _ => false
  end.

Definition is_ok (r : response) : bool :=
  match resp_class r with
  | IsSyftError | IsSyftNotReady => false
  | _ => true
  end.

(** [SyftResponseMessage.__eq__], lines 57-64, with another message or
    with a boolean. *)
Definition response_eq (self : response) (other : response + bool) : bool :=
  match other with
  | inl other =>
      String.eqb (resp_message self) (resp_message other)
      && Bool.eqb (_bool self) (_bool other)
      && Bool.eqb (require_api_update self) (require_api_update other)
  | inr b => Bool.eqb (_bool self) b
  end.

Definition class_name (c : response_class) : string :=
  match c with
  | IsSyftResponseMessage => "SyftResponseMessage"
  | IsSyftError => "SyftError"
  | IsSyftSuccess => "SyftSuccess"
  | IsSyftNotReady => "SyftNotReady"
  | IsSyftWarning => "SyftWarning"
  | IsSyftInfo => "SyftInfo"
  end.

(** [__repr__], lines 66-68. *)
Definition response_repr (r : response) : string :=
  class_name (resp_class r) ++ ": " ++ resp_message r.

(** The two messages that api.py returns, as messages of this file. *)
Definition as_response (m : SyftResponseMessage) : response :=
  match m with
  | SyftError msg => mkResponse IsSyftError msg false
  | SyftSuccess msg => mkResponse IsSyftSuccess msg false
  end.

End Responses.

(** * service/model/model.py *)

Section Models.
Context {C : Collaborators}.

(** [CreateModelAsset] with the fields that the list operations read. *)
Record CreateModelAsset : Type := mkCreateModelAsset {
  asset_name : string;
  asset_data : option value;
  asset_mock : option value
}.

(** [CreateModel] with its name and its assets. *)
Record CreateModel : Type := mkCreateModel {
  model_name : string;
  asset_list : list CreateModelAsset;
  citation : option string;
  url : option string
}.

End Models.

(** The equality of two assets (pydantic's), and a message built from a
    positional argument, [SyftSuccess(text)], as [SyftBaseModel] takes
    or refuses it. *)
Class ModelRuntime {C : Collaborators} : Type := {
  asset_eqb : CreateModelAsset -> CreateModelAsset -> bool;
  SyftSuccess_positional : string -> outcome SyftResponseMessage
}.

Section ModelOperations.
Context {C : Collaborators} {M : ModelRuntime}.

Definition double_quote : string := String (Ascii.ascii_of_nat 34) "".

(** The names of a list of assets, in order. *)
Definition asset_names (l : list CreateModelAsset) : list string := map asset_name l.

Definition with_assets (self : CreateModel) (l : list CreateModelAsset) : CreateModel :=
  {| model_name := model_name self; asset_list := l;
     citation := citation self; url := url self |}.

Definition asset_exists (self : CreateModel) (asset : CreateModelAsset)
  : SyftResponseMessage :=
  SyftError ("Asset " ++ double_quote ++ asset_name asset ++ double_quote
             ++ " already exists in '" ++ model_name self ++ "' Model."
             ++ " Use add_asset(asset, force_replace=True) to replace.").

Definition asset_added (self : CreateModel) (asset : CreateModelAsset)
  : SyftResponseMessage :=
  SyftSuccess ("Asset '" ++ asset_name asset ++ "' added to '"
               ++ model_name self ++ "' Model.").

(** The loop of [add_asset], lines 483-500, over the assets that are
    left: the new list and the answer. *)
Fixpoint add_asset_loop (self : CreateModel) (asset : CreateModelAsset)
    (force_replace : bool) (l : list CreateModelAsset)
  : list CreateModelAsset * outcome SyftResponseMessage :=
  match l with
  | [] => ([asset], Returned (asset_added self asset))
  | existing_asset :: rest =>
      if String.eqb (asset_name existing_asset) (asset_name asset) then
        if negb force_replace
        then (existing_asset :: rest, Returned (asset_exists self asset))
        else (asset :: rest,
              SyftSuccess_positional
                ("Asset " ++ asset_name asset ++ " has been successfully replaced."))
      else
        let '(rest', answer) := add_asset_loop self asset force_replace rest in
        (existing_asset :: rest', answer)
  end.

(** [CreateModel.add_asset], lines 480-500. *)
Definition add_asset (self : CreateModel) (asset : CreateModelAsset)
    (force_replace : bool) : CreateModel * outcome SyftResponseMessage :=
  let '(l, answer) := add_asset_loop self asset force_replace (asset_list self) in
  (with_assets self l, answer).

(** [list.remove(x)] when [x] is the element at index [i]: the first
    element that is [x] itself or equal to it goes. *)
Fixpoint list_remove (x : CreateModelAsset) (i : nat) (l : list CreateModelAsset)
  : list CreateModelAsset :=
  match l with
  | [] => []
  | e :: rest =>
      match i with
      | 0 => rest
      | S i' => if asset_eqb e x then rest else e :: list_remove x i' rest
      end
  end.

(** Lines 503-507: the first asset with the name, and its index. *)
Fixpoint asset_to_remove (name : string) (l : list CreateModelAsset)
  : option (nat * CreateModelAsset) :=
  match l with
  | [] => None
  | asset :: rest =>
      if String.eqb (asset_name asset) name then Some (0, asset)
      else match asset_to_remove name rest with
           | Some (i, a) => Some (S i, a)
           | None => None
           end
  end.

(** [CreateModel.remove_asset], lines 502-514. *)
Definition remove_asset (self : CreateModel) (name : string)
  : CreateModel * SyftResponseMessage :=
  match asset_to_remove name (asset_list self) with
  | None => (self, SyftError ("No asset exists with name: " ++ name))
  | Some (i, asset) =>
      (with_assets self (list_remove asset i (asset_list self)),
       SyftSuccess ("Asset '" ++ model_name self ++ "' removed from '"
                    ++ model_name self ++ "' Model."))
  end.

(** [CreateModelAsset.check], lines 256-257. *)
Definition asset_check (asset : CreateModelAsset) : SyftResponseMessage :=
  SyftSuccess "Model Asset is Valid".

(** [CreateModel.check], lines 516-524: [Ok] of a success ([inl]) or
    [Err] of the results that are falsy ([inr]). *)
Definition model_check (self : CreateModel)
  : SyftResponseMessage + list SyftResponseMessage :=
  let errors :=
    filter (fun result => negb (response_bool result))
           (map asset_check (asset_list self)) in
  match errors with
  | [] => inl (SyftSuccess "Model is Valid")
  | _ :: _ => inr errors
  end.

End ModelOperations.

(** ** Permission texts *)

(** [s.startswith(prefix)] and [s.endswith(suffix)] *)
Definition startswith (s prefix : string) : bool := String.prefix prefix s.

Fixpoint endswith (s suffix : string) : bool :=
  String.eqb s suffix
  || match s with
     | EmptyString => false
     | String _ s' => endswith s' suffix
     end.

(** [has_permission], lines 44-50; [None] is a result that is no
    string. *)
Definition has_permission (data_result : option string) : bool :=
  negb match data_result with
       | Some s => startswith s "Permission" && endswith s "denied"
       | None => false
       end.

(** ** An instance of the other collaborators *)

Module Sample.

(** Replies are decoded to the text of their bytes; an integer is an
    [Ok], a boolean an [Err]; the request [0] changes a user-code
    status. *)
#[global] Instance runtime : @Runtime Example.collaborators Example.keys :=
  {| verify_key_eqb := Byte.eqb;
     hash_name_key := fun n k => String.length n + Byte.to_nat k;
     _deserialize := fun b => Example.call_of [] [] true;
     message_data := fun e => Example.VStr (string_of_list_byte (serialized_message e));
     as_OkErr := fun v =>
       match v with
       | Example.VInt _ => Some (inl v)
       | Example.VBool _ => Some (inr v)
       | _ => None
       end;
     changes_user_code_status := fun v =>
       match v with Example.VInt 0 => true | _ => false end;
     is_None := fun v => match v with Example.VNone => true | _ => false end;
     versions := list nat;
     canonical_name := fun c =>
       if String.eqb (cls_module c) "syft" then Some (cls_name c) else None;
     downgraded_class := fun n vs =>
       match vs with
       | [] => Raised (Exception "max() arg is an empty sequence")
       | v :: _ => Returned (TClass (Class "syft" (n ++ "V" ++ Example.pystr (Example.VInt (list_max vs)))))
       end |}.

#[global] Instance model_runtime : @ModelRuntime Example.collaborators :=
  {| asset_eqb := fun a b => String.eqb (asset_name a) (asset_name b);
     SyftSuccess_positional := fun text => Returned (SyftSuccess text) |}.

(** A session without connection, and one whose connection echoes the
    call it gets. *)
Definition offline : SyftAPI :=
  {| api_connection := None;
     api_node_uid := 7;
     api_endpoints := Example.some_endpoints;
     api_lib_endpoints := None;
     api_module := None;
     api_libs := None;
     api_signing_key := Some Example.a_key;
     api_refresh_api_callback := true;
     api_communication_protocol := Example.VInt 3 |}.

Definition echo : SyftAPI :=
  {| api_connection := Some (fun signed_call => Signed signed_call);
     api_node_uid := 7;
     api_endpoints := Example.some_endpoints;
     api_lib_endpoints := None;
     api_module := None;
     api_libs := None;
     api_signing_key := Some Example.a_key;
     api_refresh_api_callback := true;
     api_communication_protocol := Example.VInt 3 |}.

(** A connection that answers without a signature. *)
Definition careless : SyftAPI :=
  {| api_connection := Some (fun _ => Unsigned (C:=Example.collaborators) (Example.VInt 1));
     api_node_uid := 7;
     api_endpoints := Example.some_endpoints;
     api_lib_endpoints := None;
     api_module := None;
     api_libs := None;
     api_signing_key := Some Example.a_key;
     api_refresh_api_callback := true;
     api_communication_protocol := Example.VInt 3 |}.

(** [f(w: Optional[Widget])] for a versioned class [Widget]. *)
Definition Widget : pytype := TClass (Class "syft" "Widget").

Definition f_widget : Signature :=
  mkSignature
    [Example.param "w" (Example.Optional Widget); Example.param "n" (TClass int_class)]
    (Some Widget).



Definition asset (n : string) : CreateModelAsset :=
  @mkCreateModelAsset Example.collaborators n None None.

Definition a_model : CreateModel :=
  @mkCreateModel Example.collaborators "mnist" [asset "weights"; asset "labels"] None None.

End Sample.

(** * Properties *)

#[local] Arguments String.eqb : simpl never.

(** ** Dictionaries *)

Section DictFacts.
Context {V : Type}.
Implicit Types (d : dict V) (k : string) (v : V).

Lemma dict_get_set_same k v d : dict_get k (dict_set k v d) = Some v.
Proof.
  induction d as [|[k' v'] d IH]; simpl.
  - now rewrite String.eqb_refl.
  - destruct (String.eqb k k') eqn:E; simpl.
    + now rewrite String.eqb_refl.
    + now rewrite E.
Qed.

Lemma dict_get_set_other k k' v d :
  k' <> k -> dict_get k' (dict_set k v d) = dict_get k' d.
Proof.
  intros Hne. induction d as [|[k0 v0] d IH]; simpl.
  - destruct (String.eqb k' k) eqn:E; [apply String.eqb_eq in E; contradiction | reflexivity].
  - destruct (String.eqb k k0) eqn:E; simpl.
    + apply String.eqb_eq in E. subst k0.
      destruct (String.eqb k' k) eqn:E'; [apply String.eqb_eq in E'; contradiction | reflexivity].
    + now rewrite IH.
Qed.

Lemma dict_get_app k d1 d2 :
  dict_get k (d1 ++ d2) =
  match dict_get k d1 with Some v => Some v | None => dict_get k d2 end.
Proof.
  induction d1 as [|[k' v'] d1 IH]; simpl; [reflexivity|].
  destruct (String.eqb k k'); [reflexivity | exact IH].
Qed.

(** After [d.update(other)], the last binding of a key in [other] wins,
    and the keys that [other] does not have keep their value. *)
Lemma dict_get_update k d other :
  dict_get k (dict_update d other) =
  match dict_get k (rev other) with Some v => Some v | None => dict_get k d end.
Proof.
  unfold dict_update. revert d.
  induction other as [|[k0 v0] other IH]; intros d; simpl; [reflexivity|].
  rewrite IH, dict_get_app. destruct (dict_get k (rev other)); [reflexivity|].
  simpl. destruct (String.eqb k k0) eqn:E.
  - apply String.eqb_eq in E. subst. apply dict_get_set_same.
  - apply dict_get_set_other. intros ->. now rewrite String.eqb_refl in E.
Qed.

Lemma dict_get_In k v d : dict_get k d = Some v -> In (k, v) d.
Proof.
  induction d as [|[k' v'] d IH]; simpl; [discriminate|].
  destruct (String.eqb k k') eqn:E.
  - apply String.eqb_eq in E. intros [= ->]. subst. now left.
  - intros H. right. now apply IH.
Qed.

(** In a dictionary (keys are unique) the order of the lookup does not
    matter. *)
Lemma dict_get_rev k d : NoDup (dict_keys d) -> dict_get k (rev d) = dict_get k d.
Proof.
  induction d as [|[k' v'] d IH]; simpl; [reflexivity|].
  intros Hnd. inversion Hnd as [|? ? Hnotin Hnd']; subst.
  rewrite dict_get_app, IH by assumption. simpl.
  destruct (String.eqb k k') eqn:E.
  - apply String.eqb_eq in E. subst k'.
    destruct (dict_get k d) eqn:G; [|reflexivity].
    exfalso. apply Hnotin. apply dict_get_In in G.
    change k with (fst (k, v)). now apply in_map.
  - now destruct (dict_get k d).
Qed.

Lemma dict_mem_true k d : dict_mem k d = true <-> exists v, dict_get k d = Some v.
Proof.
  unfold dict_mem. destruct (dict_get k d); split; intros H; eauto; try discriminate.
  now destruct H.
Qed.

End DictFacts.

(** ** The signing envelope *)

Section EnvelopeFacts.
Context {C : Collaborators} {K : Credentials}.



End EnvelopeFacts.





(** ** Validation of the keyword arguments *)

Section KeywordFacts.
Context {C : Collaborators}.

Lemma has_parameter_false (key : string) (sig : Signature) :
  has_parameter key sig = false <-> get_parameter key sig = None.
Proof.
  unfold has_parameter, get_parameter.
  induction (parameters sig) as [|p ps IH]; simpl; [tauto|].
  destruct (String.eqb key (param_name p)); simpl; [split; discriminate | exact IH].
Qed.

Lemma validate_kwargs_app (sig : Signature) (before rest acc : dict value) :
  keywords_pass sig before ->
  validate_kwargs sig (before ++ rest) acc
  = validate_kwargs sig rest (dict_update acc before).
Proof.
  revert acc. induction before as [|[k v] before IH]; intros acc Hpass; [reflexivity|].
  simpl. destruct (Hpass k v (or_introl eq_refl)) as (p & -> & ->).
  apply IH. intros k' v' Hin. apply Hpass. now right.
Qed.

Lemma validate_kwargs_unknown (sig : Signature) (items acc : dict value) (key : string) :
  In key (dict_keys items) -> get_parameter key sig = None ->
  exists msg, validate_kwargs sig items acc = Invalid (SyftError msg).
Proof.
  revert acc. induction items as [|[k v] items IH]; intros acc Hin Hnone; [contradiction|].
  simpl. destruct (get_parameter k sig) as [p|] eqn:Hp.
  - destruct (kwarg_type_ok v (kwarg_annotation p)).
    + destruct Hin as [Hk | Hin]; [simpl in Hk; congruence|]. now apply IH.
    + unfold kwarg_type_error. eauto.
  - unfold invalid_parameter. eauto.
Qed.

Lemma dict_del_keeps (kwargs : dict value) (key : string) :
  In key (dict_keys kwargs) -> key <> "blocking" ->
  In key (dict_keys (dict_del "blocking" kwargs)).
Proof.
  unfold dict_keys, dict_del. intros Hin Hne.
  apply in_map_iff in Hin. destruct Hin as ([k v] & Hk & Hin). simpl in Hk. subst k.
  apply in_map_iff. exists (key, v). split; [reflexivity|].
  apply filter_In. split; [assumption|]. simpl.
  destruct (String.eqb "blocking" key) eqn:E; [|reflexivity].
  apply String.eqb_eq in E. congruence.
Qed.

(** With no parameter named [kwargs], a keyword that fails stops the
    whole pipeline before anything is built. *)
Lemma call_stops_on_invalid_keywords (self : RemoteFunction) (args : list value)
    (kwargs : dict value) (e : SyftResponseMessage) :
  has_parameter "blocking" (rf_signature self) = false ->
  has_parameter "kwargs" (rf_signature self) = false ->
  validate_kwargs (rf_signature self) (dict_del "blocking" kwargs) [] = Invalid e ->
  __call__ self args kwargs = ([], Returned (RError e)).
Proof.
  intros Hb Hk Hv. unfold __call__, prepare_args_and_kwargs,
    validate_callable_args_and_kwargs. now rewrite Hb, Hk, Hv.
Qed.

End KeywordFacts.

(** C2, as the code has it.  The signature declares neither [blocking]
    nor a parameter named [kwargs] (the name by which the code
    recognises the catch-all), and the keyword arguments hold a key
    other than the reserved [blocking] that is not a parameter.  Then the
    call returns a [SyftError] as a value and nothing is built, shown or
    dispatched; when every keyword before that key passes, the message
    is the one that names the key. *)
Theorem unknown_keyword_is_rejected
    {C : Collaborators} (self : RemoteFunction) (args : list value)
    (kwargs : dict value) (key : string) :
  has_parameter "blocking" (rf_signature self) = false ->
  has_parameter "kwargs" (rf_signature self) = false ->
  In key (dict_keys kwargs) ->
  key <> "blocking" ->
  has_parameter key (rf_signature self) = false ->
  (exists msg, __call__ self args kwargs = ([], Returned (RError (SyftError msg))))
  /\ (forall before val after,
        dict_del "blocking" kwargs = before ++ (key, val) :: after ->
        keywords_pass (rf_signature self) before ->
        __call__ self args kwargs
        = ([], Returned (RError (SyftError
             ("Invalid parameter: `" ++ key ++ "`. Valid Parameters: "
              ++ repr_list (parameter_names (rf_signature self))))))).
Proof.
  intros Hb Hk Hin Hne Hkey. apply has_parameter_false in Hkey. split.
  - destruct (validate_kwargs_unknown (rf_signature self)
                (dict_del "blocking" kwargs) [] key) as [msg Hmsg];
      [now apply dict_del_keeps | assumption |].
    exists msg. now apply call_stops_on_invalid_keywords.
  - intros before val after Hsplit Hpass.
    apply call_stops_on_invalid_keywords; try assumption.
    rewrite Hsplit, validate_kwargs_app by assumption. simpl. now rewrite Hkey.
Qed.

Lemma unknown_keyword_is_rejected_witness :
  __call__ (Example.remote Example.f_x_int None None) []
           [("x", Example.VInt 1); ("z", Example.VInt 2)]
  = ([], Returned (RError (SyftError
       "Invalid parameter: `z`. Valid Parameters: ['x']"))).
Proof.
  apply (proj2 (@unknown_keyword_is_rejected Example.collaborators
                  (Example.remote Example.f_x_int None None) []
                  [("x", Example.VInt 1); ("z", Example.VInt 2)] "z"
                  eq_refl eq_refl (or_intror (or_introl eq_refl))
                  ltac:(discriminate) eq_refl)
               [("x", Example.VInt 1)] (Example.VInt 2) [] eq_refl).
  intros k v [[= <- <-] | []].
  exists (Example.param "x" (TClass int_class)). split; reflexivity.
Defined.

(** C2 as stated fails on the reserved keyword: [blocking] is not a
    parameter of [f(x: int)], there is no catch-all, and the call is
    dispatched.  It also fails on the key named when an earlier keyword
    is wrong: [f(x="a", z=1)] is rejected for [x], and [z] is not
    named. *)
Lemma blocking_keyword_is_not_rejected :
  In "blocking" (dict_keys [("blocking", Example.VBool false); ("x", Example.VInt 1)])
  /\ has_parameter "blocking" Example.f_x_int = false
  /\ has_parameter "kwargs" Example.f_x_int = false
  /\ __call__ (Example.remote Example.f_x_int None None) []
              [("blocking", Example.VBool false); ("x", Example.VInt 1)]
     = ([NewCall (Example.call_of []
                    [("x", Example.VInt 1); ("communication_protocol", Example.VInt 3)]
                    false);
         MakeCall (Example.call_of []
                    [("x", Example.VInt 1); ("communication_protocol", Example.VInt 3)]
                    false)],
        Returned (RValue (C:=Example.collaborators) (Example.VStr "user.create")))
  /\ has_parameter "z" Example.f_x_int = false
  /\ __call__ (Example.remote Example.f_x_int None None) []
              [("x", Example.VStr "a"); ("z", Example.VInt 1)]
     = ([], Returned (RError (SyftError "`x` must be of type `int` not `str`"))).
Proof.
  repeat split. now left.
Qed.

(** C3, as the code has it.  The signature declares neither [blocking]
    nor a parameter named [kwargs]; a keyword is a parameter annotated
    with a class, its value fails the check against that class, and the
    keywords before it pass.  Then the call returns, as a value, the
    [SyftError] that names the parameter, the class expected and the
    class of the value, and nothing is built, shown or dispatched. *)
Theorem keyword_type_mismatch_is_reported
    {C : Collaborators} (self : RemoteFunction) (args : list value)
    (kwargs before after : dict value) (key : string) (val : value)
    (p : Param) (c : pyclass) :
  has_parameter "blocking" (rf_signature self) = false ->
  has_parameter "kwargs" (rf_signature self) = false ->
  dict_del "blocking" kwargs = before ++ (key, val) :: after ->
  keywords_pass (rf_signature self) before ->
  get_parameter key (rf_signature self) = Some p ->
  param_annotation p = Some (TClass c) ->
  check_type val (TClass c) = false ->
  __call__ self args kwargs
  = ([], Returned (RError (SyftError
       ("`" ++ key ++ "` must be of type `" ++ cls_name c
        ++ "` not `" ++ cls_name (type_of val) ++ "`")))).
Proof.
  intros Hb Hk Hsplit Hpass Hp Hann Hcheck.
  apply call_stops_on_invalid_keywords; try assumption.
  rewrite Hsplit, validate_kwargs_app by assumption. simpl. rewrite Hp.
  unfold kwarg_annotation, kwarg_type_error. rewrite Hann. simpl. now rewrite Hcheck.
Qed.

Lemma keyword_type_mismatch_is_reported_witness :
  __call__ (Example.remote Example.f_x_int None None) [] [("x", Example.VStr "a")]
  = ([], Returned (RError (SyftError "`x` must be of type `int` not `str`"))).
Proof.
  apply (@keyword_type_mismatch_is_reported Example.collaborators
           (Example.remote Example.f_x_int None None) []
           [("x", Example.VStr "a")] [] [] "x" (Example.VStr "a")
           (Example.param "x" (TClass int_class)) int_class
           eq_refl eq_refl eq_refl).
  - intros k v [].
  - reflexivity.
  - reflexivity.
  - reflexivity.
Defined.

(** C3 as stated fails when the signature has a parameter named
    [kwargs]: the keywords are then taken as they are, and [f(x="a")]
    for [f(x: int, **kwargs)] is dispatched.  Without that parameter,
    [f(z=1, x="a")] for [f(x: int)] is rejected for the unknown [z], and
    the error says nothing of [x] and its types. *)
Lemma mismatch_passes_with_catch_all :
  get_parameter "x" Example.f_x_int_kwargs
  = Some (Example.param "x" (TClass int_class))
  /\ check_type (Example.VStr "a") (TClass int_class) = false
  /\ __call__ (Example.remote Example.f_x_int_kwargs None None) []
              [("x", Example.VStr "a")]
     = ([NewCall (Example.call_of []
                    [("x", Example.VStr "a"); ("communication_protocol", Example.VInt 3)]
                    true);
         MakeCall (Example.call_of []
                    [("x", Example.VStr "a"); ("communication_protocol", Example.VInt 3)]
                    true)],
        Returned (RValue (C:=Example.collaborators) (Example.VStr "user.create")))
  /\ __call__ (Example.remote Example.f_x_int None None) []
              [("z", Example.VInt 1); ("x", Example.VStr "a")]
     = ([], Returned (RError (SyftError
          "Invalid parameter: `z`. Valid Parameters: ['x']"))).
Proof.
  repeat split.
Qed.

(** C4 at [f(x: Optional[int])].  [None] matches the second alternative
    of the type.  Passed by keyword it is accepted; passed by position it
    is rejected, because the loop over the alternatives stops at the
    first one. *)
Theorem positional_optional_checks_first_alternative_only :
  optional_alternatives (Example.Optional (TClass int_class))
  = Some [TClass int_class; TClass NoneType]
  /\ check_type Example.VNone (TClass NoneType) = true
  /\ validate_callable_args_and_kwargs [] [("x", Example.VNone)]
       Example.f_x_optional_int
     = Valid ([], [("x", Example.VNone)])
  /\ validate_callable_args_and_kwargs [Example.VNone] []
       Example.f_x_optional_int
     = Invalid (SyftError "Arg: None must be Optional not NoneType").
Proof.
  repeat split.
Qed.

(** ** Validation of the positional arguments *)

Section PositionalFacts.
Context {C : Collaborators}.




End PositionalFacts.



(** ** Construction of the remote callables *)

Section ConstructionFacts.
Context {C : Collaborators}.

Lemma endpoint_function_blocking (node_uid : UID) (make_call : SyftAPICall -> value)
    (proto : value) (v : Endpoint) :
  has_parameter "blocking" (callable_signature v) = true ->
  exists msg, endpoint_function node_uid make_call proto v = Raised (Exception msg).
Proof.
  unfold callable_signature, endpoint_function, generate_remote_function,
    generate_remote_lib_function, reserved_blocking, reserved_blocking_lib.
  intros H. destruct v as [e|e]; simpl in *; rewrite H; eauto.
Qed.

Lemma build_from_blocking (node_uid : UID) (make_call : SyftAPICall -> value)
    (proto : value) (before after : dict Endpoint) (k : string) (v : Endpoint) :
  has_parameter "blocking" (callable_signature v) = true ->
  forall api_module tree,
    build_from node_uid make_call proto api_module (before ++ (k, v) :: after)
    <> Built tree.
Proof.
  intros H. induction before as [|[k' v'] before IH]; intros api_module tree; simpl.
  - destruct (endpoint_function_blocking node_uid make_call proto v H) as [msg ->].
    discriminate.
  - destruct (endpoint_function node_uid make_call proto v'); [|discriminate].
    destruct (_add_route api_module v' _); try discriminate. apply IH.
Qed.

End ConstructionFacts.

(** C5.  A signature with a parameter named [blocking] makes both
    generators raise: no callable is returned, whatever the other
    arguments.  So the callable of an endpoint with such a signature is
    never built, and the tree of an endpoint map that holds one is never
    completed. *)
Theorem blocking_parameter_is_fatal_at_construction
    {C : Collaborators} (sig : Signature) :
  has_parameter "blocking" sig = true ->
  (forall node_uid path make_call pre_kwargs proto warning,
      generate_remote_function node_uid sig path make_call pre_kwargs proto warning
      = Raised (Exception ("Signature " ++ signature_str sig
                           ++ " can't have 'blocking' kwarg because it's reserved")))
  /\ (forall node_uid path module_path make_call proto pre_kwargs,
        generate_remote_lib_function node_uid sig path module_path make_call
          proto pre_kwargs
        = Raised (Exception ("Signature " ++ signature_str sig
                             ++ " can't have 'blocking' kwarg because its reserved")))
  /\ (forall node_uid make_call proto v before k after api_module tree,
        callable_signature v = sig ->
        build_from node_uid make_call proto api_module (before ++ (k, v) :: after)
        <> Built tree).
Proof.
  intros H. split; [|split].
  - intros. unfold generate_remote_function. now rewrite H.
  - intros. unfold generate_remote_lib_function. now rewrite H.
  - intros node_uid make_call proto v before k after api_module tree Hsig.
    apply build_from_blocking. now rewrite Hsig.
Qed.

Lemma blocking_parameter_is_fatal_at_construction_witness :
  generate_remote_function 7 Example.f_blocking "user.create"
    (fun c => Example.VStr (call_path c)) None (Example.VInt 3) None
  = Raised (Exception
      "Signature (x, blocking) can't have 'blocking' kwarg because it's reserved").
Proof.
  exact (proj1 (@blocking_parameter_is_fatal_at_construction Example.collaborators
                  Example.f_blocking eq_refl)
               7 "user.create" (fun c => Example.VStr (call_path c))
               None (Example.VInt 3) None).
Defined.

(** ** The invocation pipeline *)

(** C7.  For every remote function that declares a warning and every
    call of it.  When the caller declines (the warning was shown and the
    answer was no), the call returns nothing: no error, no exception,
    and no call is dispatched.  When the caller confirms, the call built
    is dispatched once and its migrated result is returned, as for an
    endpoint without a warning.  The caller is asked whenever the
    signature has no [blocking] parameter and the arguments are valid. *)
Theorem declined_warning_returns_nothing
    {C : Collaborators} (self : RemoteFunction) (args : list value)
    (kwargs : dict value) (w : APIEndpointWarning) :
  rf_warning self = Some w ->
  (In (WarningShown w false) (fst (__call__ self args kwargs)) ->
     snd (__call__ self args kwargs) = Returned RNone
     /\ forall api_call, ~ In (MakeCall api_call) (fst (__call__ self args kwargs)))
  /\ (In (WarningShown w true) (fst (__call__ self args kwargs)) ->
        exists api_call,
          fst (__call__ self args kwargs)
          = [NewCall api_call; WarningShown w true; MakeCall api_call]
          /\ snd (__call__ self args kwargs) = call_and_migrate self api_call)
  /\ (has_parameter "blocking" (rf_signature self) = false ->
      forall _valid_args _valid_kwargs,
        prepare_args_and_kwargs self args (dict_del "blocking" kwargs)
        = Valid (_valid_args, _valid_kwargs) ->
        fst (__call__ self args kwargs)
        = NewCall (make_api_call self (blocking_of kwargs) _valid_args _valid_kwargs)
          :: WarningShown w (show w)
          :: (if show w
              then [MakeCall (make_api_call self (blocking_of kwargs)
                                _valid_args _valid_kwargs)]
              else [])).
Proof.
  intros Hw. unfold __call__. rewrite Hw.
  destruct (has_parameter "blocking" (rf_signature self)).
  { split; [intros []|]. split; [intros []|]. discriminate. }
  destruct (prepare_args_and_kwargs self args (dict_del "blocking" kwargs))
    as [[va vk]|e|e].
  2, 3: (split; [intros []|]; split; [intros []|]; discriminate).
  destruct (show w) eqn:Hshow; simpl.
  - split; [|split].
    + intros [H|[H|[H|[]]]]; discriminate.
    + intros _. eexists. split; reflexivity.
    + intros _ va' vk' [= <- <-]. reflexivity.
  - split; [|split].
    + intros _. split; [reflexivity|]. intros api_call [H|[H|[]]]; discriminate.
    + intros [H|[H|[]]]; discriminate.
    + intros _ va' vk' [= <- <-]. reflexivity.
Qed.

(** [f(x=1)] with a warning that the caller declines. *)
Lemma declined_warning_returns_nothing_witness :
  __call__ (Example.remote Example.f_x_int None (Some false)) [] [("x", Example.VInt 1)]
  = ([NewCall (Example.call_of []
                 [("x", Example.VInt 1); ("communication_protocol", Example.VInt 3)] true);
      WarningShown (C:=Example.collaborators) false false],
     Returned RNone)
  /\ forall api_call,
       ~ In (MakeCall api_call)
            (fst (__call__ (Example.remote Example.f_x_int None (Some false)) []
                           [("x", Example.VInt 1)])).
Proof.
  split; [reflexivity|].
  apply (proj1 (@declined_warning_returns_nothing Example.collaborators
                  (Example.remote Example.f_x_int None (Some false)) []
                  [("x", Example.VInt 1)] false eq_refl)).
  right. now left.
Defined.

Section MergeFacts.
Context {C : Collaborators}.

Lemma merged_kwargs_prebound (self : RemoteFunction) (blocking : bool)
    (_valid_args : list value) (_valid_kwargs pre : dict value)
    (k : string) (v : value) :
  rf_pre_kwargs self = Some pre ->
  NoDup (dict_keys pre) ->
  dict_get k pre = Some v ->
  k <> "communication_protocol" ->
  dict_get k (call_kwargs (make_api_call self blocking _valid_args _valid_kwargs))
  = Some v.
Proof.
  intros Hpre Hnd Hget Hne. unfold make_api_call. rewrite Hpre. simpl.
  rewrite dict_get_set_other by assumption.
  now rewrite dict_get_update, dict_get_rev, Hget.
Qed.

Lemma merged_kwargs_protocol (self : RemoteFunction) (blocking : bool)
    (_valid_args : list value) (_valid_kwargs : dict value) :
  dict_get "communication_protocol"
    (call_kwargs (make_api_call self blocking _valid_args _valid_kwargs))
  = Some (rf_communication_protocol self).
Proof.
  unfold make_api_call. simpl. apply dict_get_set_same.
Qed.

End MergeFacts.

(** C8, as the code has it.  For a remote function with pre-bound
    arguments, a signature without [blocking] and valid arguments: the
    call is built from the validated keywords with the pre-bound ones
    merged in, and it is the only call that is dispatched.  Every
    pre-bound key is a keyword of that call.  Every pre-bound key other
    than the reserved [communication_protocol] has its pre-bound value
    there, whatever the caller gave for it; [communication_protocol] has
    the protocol of the session. *)
Theorem prebound_arguments_are_merged
    {C : Collaborators} (self : RemoteFunction) (args : list value)
    (kwargs pre : dict value) (_valid_args : list value)
    (_valid_kwargs : dict value) :
  rf_pre_kwargs self = Some pre ->
  NoDup (dict_keys pre) ->
  has_parameter "blocking" (rf_signature self) = false ->
  prepare_args_and_kwargs self args (dict_del "blocking" kwargs)
  = Valid (_valid_args, _valid_kwargs) ->
  (exists rest,
      fst (__call__ self args kwargs)
      = NewCall (make_api_call self (blocking_of kwargs) _valid_args _valid_kwargs)
        :: rest)
  /\ (forall api_call,
        In (MakeCall api_call) (fst (__call__ self args kwargs)) ->
        api_call = make_api_call self (blocking_of kwargs) _valid_args _valid_kwargs)
  /\ (forall k,
        dict_mem k pre = true ->
        dict_mem k (call_kwargs
                      (make_api_call self (blocking_of kwargs) _valid_args _valid_kwargs))
        = true)
  /\ (forall k v,
        dict_get k pre = Some v ->
        k <> "communication_protocol" ->
        dict_get k (call_kwargs
                      (make_api_call self (blocking_of kwargs) _valid_args _valid_kwargs))
        = Some v)
  /\ dict_get "communication_protocol"
       (call_kwargs (make_api_call self (blocking_of kwargs) _valid_args _valid_kwargs))
     = Some (rf_communication_protocol self).
Proof.
  intros Hpre Hnd Hb Hprep.
  assert (Htrace :
    fst (__call__ self args kwargs)
    = NewCall (make_api_call self (blocking_of kwargs) _valid_args _valid_kwargs)
      :: match rf_warning self with
         | None => [MakeCall (make_api_call self (blocking_of kwargs) _valid_args _valid_kwargs)]
         | Some w =>
             if show w
             then [WarningShown w true;
                   MakeCall (make_api_call self (blocking_of kwargs) _valid_args _valid_kwargs)]
             else [WarningShown w false]
         end).
  { unfold __call__. rewrite Hb, Hprep.
    destruct (rf_warning self) as [w|]; [destruct (show w)|]; reflexivity. }
  repeat split.
  - eexists. exact Htrace.
  - intros api_call. rewrite Htrace.
    destruct (rf_warning self) as [w|]; [destruct (show w)|]; simpl;
      intuition (try discriminate; congruence).
  - intros k Hk. apply dict_mem_true in Hk. destruct Hk as [v Hv].
    apply dict_mem_true.
    destruct (String.eqb k "communication_protocol") eqn:E.
    + apply String.eqb_eq in E. subst k. eexists. apply merged_kwargs_protocol.
    + exists v. apply merged_kwargs_prebound with (pre := pre); try assumption.
      intros ->. now rewrite String.eqb_refl in E.
  - intros k v Hget Hne. now apply merged_kwargs_prebound with (pre := pre).
  - apply merged_kwargs_protocol.
Qed.

Lemma NoDup_one_key (k : string) : NoDup [k].
Proof. constructor; [intros [] | constructor]. Qed.

(** A user-code endpoint: [uid] is pre-bound and wins over the [uid]
    that the caller passes. *)
Lemma prebound_arguments_are_merged_witness :
  dict_get "uid"
    (call_kwargs
       (make_api_call
          (Example.remote Example.f_uid (Some [("uid", Example.VInt 42)]) None)
          true [] [("uid", Example.VInt 5)]))
  = Some (Example.VInt 42).
Proof.
  refine (proj1 (proj2 (proj2 (proj2
    (@prebound_arguments_are_merged Example.collaborators
       (Example.remote Example.f_uid (Some [("uid", Example.VInt 42)]) None) []
       [("uid", Example.VInt 5)] [("uid", Example.VInt 42)] [] [("uid", Example.VInt 5)]
       eq_refl (NoDup_one_key "uid") eq_refl eq_refl))))
    "uid" (Example.VInt 42) eq_refl _).
  discriminate.
Defined.

(** C8 as stated fails on the reserved keyword: pre-bound
    [communication_protocol=1], caller [communication_protocol=2], and
    the call carries the protocol of the session, 3. *)
Lemma prebound_protocol_is_overwritten :
  dict_get "communication_protocol" [("communication_protocol", Example.VInt 1)]
  = Some (Example.VInt 1)
  /\ __call__ (Example.remote Example.f_protocol
                 (Some [("communication_protocol", Example.VInt 1)]) None)
              [] [("communication_protocol", Example.VInt 2)]
     = ([NewCall (Example.call_of [] [("communication_protocol", Example.VInt 3)] true);
         MakeCall (Example.call_of [] [("communication_protocol", Example.VInt 3)] true)],
        Returned (RValue (C:=Example.collaborators) (Example.VStr "user.create")))
  /\ dict_get "communication_protocol"
       (call_kwargs (Example.call_of [] [("communication_protocol", Example.VInt 3)] true))
     <> Some (Example.VInt 1).
Proof.
  repeat split. discriminate.
Qed.

(** ** Attribute access on a namespace *)




(** ** The proxy tree *)

Section TreeFacts.
Context {C : Collaborators}.

Lemma string_app_assoc (a b c : string) : ((a ++ b) ++ c)%string = (a ++ b ++ c)%string.
Proof. induction a as [|ch a IH]; simpl; [reflexivity | now rewrite IH]. Qed.

Lemma string_app_nil_r (a : string) : (a ++ "")%string = a.
Proof. induction a as [|ch a IH]; simpl; [reflexivity | now rewrite IH]. Qed.

Ltac solve_rebinds :=
  split; [reflexivity|];
  split; [simpl; apply dict_get_set_same|];
  let k' := fresh "k" in let Hne := fresh "Hne" in
  intros k' Hne; simpl; now rewrite !dict_get_set_other by assumption.

Lemma own_attr_path_or_modules (seg : string) :
  own_attr seg = false ->
  String.eqb seg "path" = false /\ String.eqb seg "_modules" = false
  /\ class_attr seg = false.
Proof.
  unfold own_attr. intros H. apply orb_false_iff in H. destruct H as [H ?].
  apply orb_false_iff in H. tauto.
Qed.

Lemma walk_nil (s s' : APIModule) (last : string) (x : member) :
  add_route_walk s [] last x = Built s' ->
  own_attr last = false /\ rebinds s s' last x.
Proof.
  simpl. unfold _add_submodule. destruct (own_attr last); [discriminate|].
  intros [= <-]. split; [reflexivity|]. solve_rebinds.
Qed.

Lemma walk_nil_built (s : APIModule) (last : string) (x : member) :
  own_attr last = false -> exists s', add_route_walk s [] last x = Built s'.
Proof.
  intros H. simpl. unfold _add_submodule. rewrite H. eauto.
Qed.

Lemma walk_cons (s s' : APIModule) (seg : string) (rest : list string)
    (last : string) (x : member) :
  add_route_walk s (seg :: rest) last x = Built s' ->
  exists child child',
    descend s seg = Some child
    /\ add_route_walk child rest last x = Built child'
    /\ rebinds s s' seg (Submodule child').
Proof.
  simpl. unfold hasattr, __getattribute__, object_getattribute, descend.
  destruct (dict_get seg (members s)) as [[child|f d]|] eqn:Hget.
  - rewrite Hget.
    destruct (add_route_walk child rest last x) as [child'| |] eqn:Hwalk; try discriminate.
    intros [= <-]. exists child, child'.
    split; [reflexivity|]. split; [exact Hwalk|]. solve_rebinds.
  - rewrite Hget. discriminate.
  - destruct (own_attr seg) eqn:Hown.
    + unfold own_attr in Hown.
      destruct (String.eqb seg "path"); [rewrite Hget; discriminate|].
      destruct (String.eqb seg "_modules"); [rewrite Hget; discriminate|].
      simpl in Hown. rewrite Hown. simpl. rewrite Hget. discriminate.
    + destruct (own_attr_path_or_modules seg Hown) as (-> & -> & ->).
      unfold _add_submodule. rewrite Hown. simpl. rewrite dict_get_set_same.
      destruct (add_route_walk _ rest last x) as [child'| |] eqn:Hwalk; try discriminate.
      intros [= <-]. eexists _, child'.
      split; [reflexivity|]. split; [exact Hwalk|]. solve_rebinds.
Qed.

Lemma walk_cons_built (s child child' : APIModule) (seg : string)
    (rest : list string) (last : string) (x : member) :
  descend s seg = Some child ->
  add_route_walk child rest last x = Built child' ->
  exists s', add_route_walk s (seg :: rest) last x = Built s'.
Proof.
  simpl. unfold hasattr, __getattribute__, object_getattribute, descend.
  destruct (dict_get seg (members s)) as [[c|f d]|] eqn:Hget.
  - intros [= ->] Hwalk. rewrite Hget, Hwalk. eauto.
  - discriminate.
  - destruct (own_attr seg) eqn:Hown; [discriminate|].
    destruct (own_attr_path_or_modules seg Hown) as (-> & -> & ->).
    intros [= <-] Hwalk. unfold _add_submodule. rewrite Hown. simpl.
    rewrite dict_get_set_same, Hwalk. eauto.
Qed.

Lemma walk_path (s s' : APIModule) (mods : list string) (last : string) (x : member) :
  add_route_walk s mods last x = Built s' -> path s' = path s.
Proof.
  destruct mods as [|seg rest]; intros H.
  - apply walk_nil in H. apply H.
  - apply walk_cons in H. destruct H as (? & ? & _ & _ & H). apply H.
Qed.

Lemma resolve_cons (s : APIModule) (k : string) (r : list string) :
  resolve (Submodule s) (k :: r)
  = match dict_get k (members s) with Some y => resolve y r | None => None end.
Proof. reflexivity. Qed.

Lemma resolve_method (f : EndpointFunction) (d : option string) (r : list string)
    (y : member) :
  resolve (Method f d) r = Some y -> r = [] /\ y = Method f d.
Proof. destruct r; simpl; [intros [= <-]; auto | discriminate]. Qed.

Lemma resolve_new (p : string) (r : list string) (y : member) :
  resolve (Submodule (new_APIModule p)) r = Some y ->
  r = [] /\ y = Submodule (new_APIModule p).
Proof. destruct r; simpl; [intros [= <-]; auto | discriminate]. Qed.

Lemma resolve_descend (s child : APIModule) (seg : string) (r : list string)
    (f : EndpointFunction) (d : option string) :
  descend s seg = Some child ->
  resolve (Submodule s) (seg :: r) = Some (Method f d)
  <-> resolve (Submodule child) r = Some (Method f d).
Proof.
  unfold descend. rewrite resolve_cons.
  destruct (dict_get seg (members s)) as [[c|f' d']|]; try discriminate.
  - intros [= ->]. tauto.
  - destruct (own_attr seg); [discriminate|]. intros [= <-]. split; [discriminate|].
    intros H. apply resolve_new in H. destruct H as [_ H]. discriminate.
Qed.

Lemma is_prefixb_cons (a : string) (p : list string) (b : string) (r : list string) :
  is_prefixb (a :: p) (b :: r) = String.eqb a b && is_prefixb p r.
Proof. reflexivity. Qed.

(** The endpoint is where its route says. *)
Lemma walk_places (mods : list string) (last : string) (x : member) :
  forall s s', add_route_walk s mods last x = Built s' ->
    resolve (Submodule s') (mods ++ [last]) = Some x.
Proof.
  induction mods as [|seg rest IH]; intros s s' H.
  - apply walk_nil in H. destruct H as (_ & _ & Hget & _).
    simpl. now rewrite Hget.
  - apply walk_cons in H. destruct H as (child & child' & _ & Hwalk & _ & Hget & _).
    simpl. rewrite Hget. now apply IH with (s := child).
Qed.

(** The methods elsewhere stay. *)
Lemma walk_keeps (mods : list string) (last : string) (x : member)
    (f : EndpointFunction) (d : option string) :
  forall s s' r, add_route_walk s mods last x = Built s' ->
    resolve (Submodule s) r = Some (Method f d) ->
    is_prefixb (mods ++ [last]) r = false ->
    resolve (Submodule s') r = Some (Method f d).
Proof.
  induction mods as [|seg rest IH]; intros s s' r H Hres Hpre.
  - apply walk_nil in H. destruct H as (_ & _ & _ & Hother).
    destruct r as [|k r]; [discriminate|].
    simpl in Hpre. rewrite resolve_cons in *.
    destruct (String.eqb last k) eqn:E.
    + now destruct r.
    + rewrite Hother; [assumption|]. intros ->. now rewrite String.eqb_refl in E.
  - apply walk_cons in H. destruct H as (child & child' & Hd & Hwalk & _ & Hget & Hother).
    destruct r as [|k r]; [discriminate|].
    change ((seg :: rest) ++ [last]) with (seg :: (rest ++ [last])) in Hpre.
    rewrite is_prefixb_cons in Hpre.
    destruct (String.eqb seg k) eqn:E.
    + apply String.eqb_eq in E. subst k. simpl in Hpre.
      rewrite resolve_cons, Hget.
      apply (resolve_descend s child seg r f d Hd) in Hres.
      now apply IH with (s := child).
    + rewrite resolve_cons in *. rewrite Hother; [assumption|].
      intros ->. now rewrite String.eqb_refl in E.
Qed.

(** A method of the new tree is the endpoint just added or was there. *)
Lemma walk_reflects (mods : list string) (last : string)
    (f0 : EndpointFunction) (d0 : option string)
    (f : EndpointFunction) (d : option string) :
  forall s s' r, add_route_walk s mods last (Method f0 d0) = Built s' ->
    resolve (Submodule s') r = Some (Method f d) ->
    r = mods ++ [last] \/ resolve (Submodule s) r = Some (Method f d).
Proof.
  induction mods as [|seg rest IH]; intros s s' r H Hres.
  - apply walk_nil in H. destruct H as (_ & _ & Hget & Hother).
    destruct r as [|k r]; [discriminate|]. rewrite resolve_cons in *.
    destruct (String.eqb k last) eqn:E.
    + apply String.eqb_eq in E. subst k. rewrite Hget in Hres.
      apply resolve_method in Hres. destruct Hres as [-> _]. now left.
    + right. rewrite <- Hother; [assumption|].
      intros ->. now rewrite String.eqb_refl in E.
  - apply walk_cons in H. destruct H as (child & child' & Hd & Hwalk & _ & Hget & Hother).
    destruct r as [|k r]; [discriminate|].
    destruct (String.eqb k seg) eqn:E.
    + apply String.eqb_eq in E. subst k. rewrite resolve_cons, Hget in Hres.
      destruct (IH child child' r Hwalk Hres) as [-> | Hold]; [now left|].
      right. now apply (resolve_descend s child seg r f d Hd).
    + right. rewrite resolve_cons in *. rewrite <- Hother; [assumption|].
      intros ->. now rewrite String.eqb_refl in E.
Qed.

Lemma well_pathed_new (p : string) : well_pathed (new_APIModule p).
Proof.
  intros r m H. apply resolve_new in H. destruct H as [-> [= ->]].
  simpl. now rewrite string_app_nil_r.
Qed.

Lemma well_pathed_descend (s child : APIModule) (seg : string) :
  well_pathed s -> descend s seg = Some child ->
  path child = (path s ++ "." ++ seg)%string /\ well_pathed child.
Proof.
  unfold descend. intros Hwp.
  destruct (dict_get seg (members s)) as [[c|f d]|] eqn:Hget; try discriminate.
  - intros [= ->].
    assert (Hp : path child = (path s ++ "." ++ seg)%string).
    { rewrite (Hwp [seg] child); [|now rewrite resolve_cons, Hget].
      simpl. now rewrite string_app_nil_r. }
    split; [exact Hp|]. intros r m Hres.
    rewrite (Hwp (seg :: r) m); [|now rewrite resolve_cons, Hget].
    rewrite Hp. simpl. now rewrite !string_app_assoc.
  - destruct (own_attr seg); [discriminate|]. intros [= <-].
    split; [reflexivity | apply well_pathed_new].
Qed.

Lemma walk_well_pathed (mods : list string) (last : string)
    (f0 : EndpointFunction) (d0 : option string) :
  forall s s', add_route_walk s mods last (Method f0 d0) = Built s' ->
    well_pathed s -> well_pathed s'.
Proof.
  induction mods as [|seg rest IH]; intros s s' H Hwp r m Hres.
  - apply walk_nil in H. destruct H as (_ & Hpath & Hget & Hother).
    destruct r as [|k r].
    + injection Hres as <-. simpl. now rewrite string_app_nil_r.
    + rewrite resolve_cons in Hres. rewrite Hpath.
      destruct (String.eqb k last) eqn:E.
      * apply String.eqb_eq in E. subst k. rewrite Hget in Hres.
        apply resolve_method in Hres. destruct Hres as [_ Hres]. discriminate.
      * apply Hwp. rewrite resolve_cons, <- Hother; [assumption|].
        intros ->. now rewrite String.eqb_refl in E.
  - apply walk_cons in H.
    destruct H as (child & child' & Hd & Hwalk & Hpath & Hget & Hother).
    destruct (well_pathed_descend s child seg Hwp Hd) as [Hchild Hwpc].
    destruct r as [|k r].
    + injection Hres as <-. simpl. now rewrite string_app_nil_r.
    + rewrite resolve_cons in Hres. rewrite Hpath.
      destruct (String.eqb k seg) eqn:E.
      * apply String.eqb_eq in E. subst k. rewrite Hget in Hres.
        rewrite (IH child child' Hwalk Hwpc r m Hres).
        rewrite (walk_path _ _ _ _ _ Hwalk), Hchild. simpl.
        now rewrite !string_app_assoc.
      * apply Hwp. rewrite resolve_cons, <- Hother; [assumption|].
        intros ->. now rewrite String.eqb_refl in E.
Qed.

(** The walk completes when the names are free and no method is met on
    the way. *)
Lemma walk_built (mods : list string) (last : string) (x : member) :
  forall s,
    forallb (fun seg => negb (own_attr seg)) (mods ++ [last]) = true ->
    (forall p f d, is_prefixb p mods = true ->
        resolve (Submodule s) p <> Some (Method f d)) ->
    exists s', add_route_walk s mods last x = Built s'.
Proof.
  induction mods as [|seg rest IH]; intros s Hfree Hmeth.
  - apply walk_nil_built. simpl in Hfree.
    apply andb_true_iff in Hfree. destruct Hfree as [Hfree _].
    now apply negb_true_iff in Hfree.
  - simpl in Hfree. apply andb_true_iff in Hfree. destruct Hfree as [Hseg Hfree].
    apply negb_true_iff in Hseg.
    assert (Hd : exists child, descend s seg = Some child).
    { unfold descend. destruct (dict_get seg (members s)) as [[c|f d]|] eqn:Hget.
      - eauto.
      - exfalso. apply (Hmeth [seg] f d).
        + simpl. now rewrite String.eqb_refl.
        + now rewrite resolve_cons, Hget.
      - rewrite Hseg. eauto. }
    destruct Hd as [child Hd].
    destruct (IH child Hfree) as [child' Hwalk].
    { intros p f d Hp Hres. apply (Hmeth (seg :: p) f d).
      - simpl. now rewrite String.eqb_refl.
      - now apply (resolve_descend s child seg p f d Hd). }
    now apply walk_cons_built with (child := child) (child' := child').
Qed.

End TreeFacts.

Section BuildFacts.
Context {C : Collaborators}.
Variables (node_uid : UID) (make_call : SyftAPICall -> value) (proto : value).

Local Abbreviation placed := (placed node_uid make_call proto).
Local Abbreviation invariant := (invariant node_uid make_call proto).

Lemma is_prefixb_split (p l : list string) :
  is_prefixb p l = true -> exists q, l = p ++ q.
Proof.
  revert l. induction p as [|a p IH]; intros l H; [now exists l|].
  destruct l as [|b l]; [discriminate|]. simpl in H.
  apply andb_true_iff in H. destruct H as [Hab H].
  apply String.eqb_eq in Hab. subst b.
  destruct (IH l H) as [q ->]. now exists q.
Qed.

Lemma is_prefixb_app (p l q : list string) :
  is_prefixb p l = true -> is_prefixb p (l ++ q) = true.
Proof.
  revert l. induction p as [|a p IH]; intros l H; [reflexivity|].
  destruct l as [|b l]; [discriminate|]. simpl in *.
  apply andb_true_iff in H. destruct H as [-> H]. simpl. now apply IH.
Qed.

Lemma prefix_free_split (l1 l2 : list (list string)) (r : list string) :
  prefix_free (l1 ++ r :: l2) = true ->
  forall r0, In r0 l1 -> is_prefixb r0 r = false /\ is_prefixb r r0 = false.
Proof.
  induction l1 as [|a l1 IH]; intros H r0 Hin; [contradiction|].
  simpl in H. apply andb_true_iff in H. destruct H as [Hall Hrest].
  destruct Hin as [<- | Hin]; [|now apply IH].
  rewrite forallb_forall in Hall.
  specialize (Hall r (in_elt r l1 l2)).
  apply andb_true_iff in Hall. destruct Hall as [H1 H2].
  now rewrite negb_true_iff in H1, H2.
Qed.

Lemma resolve_app (p q : list string) :
  forall x y, resolve x (p ++ q) = Some y ->
    exists z, resolve x p = Some z /\ resolve z q = Some y.
Proof.
  induction p as [|a p IH]; intros x y H; [now exists x|].
  destruct x as [m|f d]; [|discriminate]. simpl in *.
  destruct (dict_get a (members m)) as [x'|]; [now apply IH | discriminate].
Qed.

Lemma endpoint_function_returns (v : Endpoint) :
  has_parameter "blocking" (callable_signature v) = false ->
  exists f, endpoint_function node_uid make_call proto v = Returned f.
Proof.
  unfold callable_signature, endpoint_function, generate_remote_function,
    generate_remote_lib_function.
  intros H. destruct v as [e|e]; simpl in *; rewrite H; eauto.
Qed.

Lemma invariant_new : invariant (new_APIModule "") [].
Proof.
  constructor.
  - intros k v [].
  - intros r f d H. apply resolve_new in H. destruct H as [_ H]. discriminate.
  - apply well_pathed_new.
  - reflexivity.
Qed.

Lemma add_route_invariant (tree : APIModule) (done : dict Endpoint)
    (k : string) (v : Endpoint) :
  invariant tree done ->
  has_parameter "blocking" (callable_signature v) = false ->
  forallb (fun seg => negb (own_attr seg)) (leaf_route v) = true ->
  (forall k0 v0, In (k0, v0) done ->
      is_prefixb (leaf_route v0) (leaf_route v) = false
      /\ is_prefixb (leaf_route v) (leaf_route v0) = false) ->
  exists f tree',
    endpoint_function node_uid make_call proto v = Returned f
    /\ _add_route tree v (Method f (doc_string v)) = Built tree'
    /\ invariant tree' (done ++ [(k, v)]).
Proof.
  intros [Hplaced Hmethods Hpaths Hroot] Hblocking Hfree Hapart.
  destruct (endpoint_function_returns v Hblocking) as [f Hf].
  destruct (walk_built (route_modules v) (name v) (Method f (doc_string v)) tree Hfree)
    as [tree' Hwalk].
  { intros p f0 d0 Hp Hres.
    destruct (Hmethods p f0 d0 Hres) as (k0 & v0 & Hin & Hroute).
    destruct (Hapart k0 v0 Hin) as [Hno _].
    rewrite Hroute in Hno. unfold leaf_route in Hno.
    now rewrite is_prefixb_app in Hno. }
  exists f, tree'. split; [exact Hf|]. split; [exact Hwalk|]. constructor.
  - intros k1 v1 Hin. apply in_app_or in Hin. destruct Hin as [Hin | [[= <- <-] | []]].
    + destruct (Hplaced k1 v1 Hin) as (f1 & Hf1 & Hres1).
      exists f1. split; [exact Hf1|].
      apply (walk_keeps _ _ _ _ _ _ _ _ Hwalk Hres1).
      apply (Hapart k1 v1 Hin).
    + exists f. split; [exact Hf|]. apply (walk_places _ _ _ _ _ Hwalk).
  - intros r f1 d1 Hres.
    destruct (walk_reflects _ _ _ _ _ _ _ _ _ Hwalk Hres) as [-> | Hold].
    + exists k, v. split; [apply in_or_app; right; now left | reflexivity].
    + destruct (Hmethods r f1 d1 Hold) as (k0 & v0 & Hin & Hroute).
      exists k0, v0. split; [apply in_or_app; now left | exact Hroute].
  - apply (walk_well_pathed _ _ _ _ _ _ Hwalk Hpaths).
  - now rewrite (walk_path _ _ _ _ _ Hwalk).
Qed.

Lemma build_from_invariant (endpoints : dict Endpoint) :
  forall (tree : APIModule) (done : dict Endpoint),
    invariant tree done ->
    forallb (fun kv => negb (has_parameter "blocking" (callable_signature (snd kv))))
            endpoints = true ->
    forallb (fun kv => forallb (fun seg => negb (own_attr seg)) (leaf_route (snd kv)))
            endpoints = true ->
    prefix_free (map (fun kv => leaf_route (snd kv)) (done ++ endpoints)) = true ->
    exists tree',
      build_from node_uid make_call proto tree endpoints = Built tree'
      /\ invariant tree' (done ++ endpoints).
Proof.
  induction endpoints as [|[k v] endpoints IH]; intros tree done Hinv Hblocking Hfree Hapart.
  - exists tree. rewrite app_nil_r. now split.
  - simpl in Hblocking, Hfree.
    apply andb_true_iff in Hblocking. destruct Hblocking as [Hb Hblocking].
    apply andb_true_iff in Hfree. destruct Hfree as [Hf Hfree].
    apply negb_true_iff in Hb.
    destruct (add_route_invariant tree done k v Hinv Hb Hf) as (f & tree1 & Hfun & Hroute & Hinv1).
    { intros k0 v0 Hin. rewrite map_app in Hapart. simpl in Hapart.
      apply (prefix_free_split _ _ _ Hapart).
      apply in_map_iff. now exists (k0, v0). }
    replace (done ++ (k, v) :: endpoints) with ((done ++ [(k, v)]) ++ endpoints) in *
      by now rewrite <- app_assoc.
    destruct (IH tree1 (done ++ [(k, v)]) Hinv1 Hblocking Hfree Hapart) as (tree' & Hbuild & Hinv').
    exists tree'. split; [|exact Hinv'].
    simpl. now rewrite Hfun, Hroute.
Qed.

Lemma placed_namespaces (tree : APIModule) (v : Endpoint) (p : list string) :
  well_pathed tree -> path tree = "" -> placed tree v ->
  is_prefixb p (route_modules v) = true ->
  exists m, resolve (Submodule tree) p = Some (Submodule m) /\ path m = dotted p.
Proof.
  intros Hwp Hroot (f & _ & Hres) Hp.
  destruct (is_prefixb_split _ _ Hp) as [q Hq].
  unfold leaf_route in Hres. rewrite Hq, <- app_assoc in Hres.
  destruct (resolve_app _ _ _ _ Hres) as ([m|f' d'] & Hz & Hrest).
  - exists m. split; [exact Hz|]. rewrite (Hwp p m Hz), Hroot. reflexivity.
  - apply resolve_method in Hrest. destruct Hrest as [Hnil _].
    now destruct q.
Qed.

End BuildFacts.

(** C6, as the code has it.  In the endpoint map no signature handed to
    the generators declares [blocking], no segment and no display name
    is an attribute of the node object itself, and no endpoint goes
    where another one goes or below it.  Then the tree is built, and
    every endpoint of the map is in it: its callable, with its doc
    string, is the member named by the display name, under the
    namespaces named by the segments of the module path but the last;
    the namespace reached by [a; b] has the path [.a.b]. *)
Theorem every_endpoint_is_placed
    {C : Collaborators} (node_uid : UID) (make_call : SyftAPICall -> value)
    (proto : value) (endpoints : dict Endpoint) :
  forallb (fun kv => negb (has_parameter "blocking" (callable_signature (snd kv))))
          endpoints = true ->
  forallb (fun kv => forallb (fun seg => negb (own_attr seg)) (leaf_route (snd kv)))
          endpoints = true ->
  prefix_free (map (fun kv => leaf_route (snd kv)) endpoints) = true ->
  exists tree,
    build_endpoint_tree node_uid make_call endpoints proto = Built tree
    /\ forall k v, In (k, v) endpoints ->
         exists f,
           endpoint_function node_uid make_call proto v = Returned f
           /\ resolve (Submodule tree)
                (removelast (split_dot (module_path v)) ++ [name v])
              = Some (Method f (doc_string v))
           /\ forall p,
                is_prefixb p (removelast (split_dot (module_path v))) = true ->
                exists m,
                  resolve (Submodule tree) p = Some (Submodule m)
                  /\ path m = dotted p.
Proof.
  intros Hblocking Hfree Hapart.
  destruct (build_from_invariant node_uid make_call proto endpoints
              (new_APIModule "") [] (invariant_new node_uid make_call proto)
              Hblocking Hfree Hapart)
    as (tree & Hbuild & [Hplaced Hmethods Hpaths Hroot]).
  exists tree. split; [exact Hbuild|].
  intros k v Hin. destruct (Hplaced k v Hin) as (f & Hf & Hres).
  exists f. split; [exact Hf|]. split; [exact Hres|].
  intros p Hp.
  apply (placed_namespaces node_uid make_call proto tree v p Hpaths Hroot); [|exact Hp].
  now exists f.
Qed.

Lemma every_endpoint_is_placed_witness :
  exists tree,
    build_endpoint_tree 7 Example.send Example.some_endpoints (Example.VInt 3)
    = Built tree
    /\ forall k v, In (k, v) Example.some_endpoints ->
         exists f,
           endpoint_function 7 Example.send (Example.VInt 3) v = Returned f
           /\ resolve (Submodule tree)
                (removelast (split_dot (module_path v)) ++ [name v])
              = Some (Method f (doc_string v))
           /\ forall p,
                is_prefixb p (removelast (split_dot (module_path v))) = true ->
                exists m,
                  resolve (Submodule tree) p = Some (Submodule m)
                  /\ path m = dotted p.
Proof.
  apply (@every_endpoint_is_placed Example.collaborators 7 Example.send
           (Example.VInt 3) Example.some_endpoints); reflexivity.
Defined.

(** C6 as stated fails on an endpoint map in which two endpoints go to
    the same place: the custom function [get_all] takes the place of
    the method [get_all] of the code service, whose callable is then
    nowhere in the tree. *)
Lemma later_endpoint_replaces_earlier :
  exists f1 f2,
    endpoint_function 7 Example.send (Example.VInt 3)
      (Example.service "code.get_all" "get_all" Example.f_x_optional_int)
    = Returned (RemoteFn f1)
    /\ build_endpoint_tree 7 Example.send Example.clashing_endpoints (Example.VInt 3)
       = Built (Example.clash_tree f2)
    /\ rf_path f1 = "code.get_all"
    /\ rf_path f2 = "code.call"
    /\ forall r d,
         resolve (Submodule (Example.clash_tree f2)) r <> Some (Method (RemoteFn f1) d).
Proof.
  eexists _, _.
  split; [reflexivity|]. split; [reflexivity|].
  split; [reflexivity|]. split; [reflexivity|].
  intros r d. unfold Example.clash_tree.
  destruct r as [|k1 r]; [discriminate|]. rewrite resolve_cons. simpl.
  destruct (String.eqb k1 "code"); [|discriminate].
  destruct r as [|k2 r]; [discriminate|]. rewrite resolve_cons. simpl.
  destruct (String.eqb k2 "get_all"); [|discriminate].
  destruct r as [|k3 r]; [|discriminate]. simpl. intros H.
  inversion H.
Qed.

(** * Properties of the rest of the client *)

(** ** The session registry *)

Section RegistryFacts.
Context {C : Collaborators} {K : Credentials} {R : Runtime}.
Hypothesis verify_key_eqb_eq :
  forall a b : SyftVerifyKey, verify_key_eqb a b = true <-> a = b.

Lemma registry_key_eqb_eq (a b : registry_key) :
  registry_key_eqb a b = true <-> a = b.
Proof.
  unfold registry_key_eqb. destruct a as [n k], b as [n' k']. simpl.
  rewrite andb_true_iff, Nat.eqb_eq, verify_key_eqb_eq.
  split; [intros [-> ->]; reflexivity | intros [= -> ->]; auto].
Qed.

Lemma registry_key_eqb_refl (a : registry_key) : registry_key_eqb a a = true.
Proof. now apply registry_key_eqb_eq. Qed.

Lemma registry_key_eqb_neq (a b : registry_key) :
  a <> b -> registry_key_eqb a b = false.
Proof.
  intros Hne. destruct (registry_key_eqb a b) eqn:E; [|reflexivity].
  apply registry_key_eqb_eq in E. contradiction.
Qed.

Lemma api_for_set_same (r : api_registry) (n : UID) (k : SyftVerifyKey) (api : SyftAPI) :
  api_for (set_api_for r n k api) n k = Some api.
Proof.
  unfold set_api_for. induction r as [|[key' api'] r IH]; simpl.
  - now rewrite registry_key_eqb_refl.
  - destruct (registry_key_eqb (n, k) key') eqn:E; simpl.
    + now rewrite registry_key_eqb_refl.
    + now rewrite E.
Qed.

Lemma api_for_set_other (r : api_registry) (n n' : UID) (k k' : SyftVerifyKey)
    (api : SyftAPI) :
  (n', k') <> (n, k) ->
  api_for (set_api_for r n k api) n' k' = api_for r n' k'.
Proof.
  intros Hne. unfold set_api_for. induction r as [|[key' api'] r IH]; simpl.
  - now rewrite registry_key_eqb_neq.
  - destruct (registry_key_eqb (n, k) key') eqn:E; simpl.
    + apply registry_key_eqb_eq in E. subst key'.
      now rewrite registry_key_eqb_neq.
    + now rewrite IH.
Qed.

Lemma set_api_for_known (r : api_registry) (n : UID) (k : SyftVerifyKey)
    (old api : SyftAPI) :
  api_for r n k = Some old ->
  exists before after,
    r = before ++ ((n, k), old) :: after
    /\ api_for before n k = None
    /\ set_api_for r n k api = before ++ ((n, k), api) :: after.
Proof.
  unfold set_api_for. induction r as [|[key' api'] r IH]; simpl; [discriminate|].
  destruct (registry_key_eqb (n, k) key') eqn:E.
  - apply registry_key_eqb_eq in E. subst key'. intros [= ->].
    now exists [], r.
  - intros Hold. destruct (IH Hold) as (before & after & -> & Hnone & ->).
    exists ((key', api') :: before), after. simpl. now rewrite E.
Qed.

Lemma set_api_for_new (r : api_registry) (n : UID) (k : SyftVerifyKey) (api : SyftAPI) :
  api_for r n k = None -> set_api_for r n k api = r ++ [((n, k), api)].
Proof.
  unfold set_api_for. induction r as [|[key' api'] r IH]; simpl; [reflexivity|].
  destruct (registry_key_eqb (n, k) key'); [discriminate|].
  intros H. now rewrite IH.
Qed.

End RegistryFacts.

Section RecentFacts.
Context {C : Collaborators} {K : Credentials} {R : Runtime}.

Lemma recent_unfold (r : api_registry) (n : UID) :
  get_by_recent_node_uid r n
  = match find (of_node n) (rev r) with
    | Some (_, api) => Some api
    | None => None
    end.
Proof. reflexivity. Qed.

Lemma find_app_some (n : UID) (l1 l2 : api_registry) (item : registry_key * SyftAPI) :
  find (of_node n) l1 = Some item -> find (of_node n) (l1 ++ l2) = Some item.
Proof.
  induction l1 as [|x l1 IH]; simpl; [discriminate|].
  destruct (of_node n x); [trivial | exact IH].
Qed.

Lemma find_none_iff (n : UID) (l : api_registry) :
  find (of_node n) l = None <-> forall item, In item l -> of_node n item = false.
Proof.
  induction l as [|x l IH]; simpl.
  - split; [intros _ ? [] | reflexivity].
  - destruct (of_node n x) eqn:E.
    + split; [discriminate|]. intros H.
      specialize (H x (or_introl eq_refl)). congruence.
    + rewrite IH. split.
      * intros H y [<- | Hin]; [exact E | now apply H].
      * intros H y Hin. apply H. now right.
Qed.

Lemma find_first (n : UID) (l : api_registry) (item : registry_key * SyftAPI) :
  find (of_node n) l = Some item ->
  exists l1 l2,
    l = l1 ++ item :: l2
    /\ of_node n item = true
    /\ forall x, In x l1 -> of_node n x = false.
Proof.
  induction l as [|x l IH]; simpl; [discriminate|].
  destruct (of_node n x) eqn:E.
  - intros [= ->]. exists [], l. repeat split; [exact E | intros ? []].
  - intros H. destruct (IH H) as (l1 & l2 & -> & Hn & Hl1).
    exists (x :: l1), l2. repeat split; [exact Hn|].
    intros y [<- | Hin]; [exact E | now apply Hl1].
Qed.

Lemma recent_none (r : api_registry) (n : UID) :
  find (of_node n) (rev r) = None <-> forall item, In item r -> of_node n item = false.
Proof.
  rewrite find_none_iff. split; intros H item Hin; apply H.
  - now apply in_rev in Hin.
  - now apply in_rev.
Qed.

Lemma recent_some (r : api_registry) (n : UID) (item : registry_key * SyftAPI) :
  find (of_node n) (rev r) = Some item ->
  exists before after,
    r = before ++ item :: after
    /\ of_node n item = true
    /\ forall x, In x after -> of_node n x = false.
Proof.
  intros H. destruct (find_first n _ _ H) as (l1 & l2 & Heq & Hn & Hl1).
  exists (rev l2), (rev l1). repeat split.
  - rewrite <- (rev_involutive r), Heq, rev_app_distr. simpl.
    now rewrite <- app_assoc.
  - exact Hn.
  - intros x Hin. apply Hl1. now apply in_rev.
Qed.

End RecentFacts.

(** X1.  A session registered for a node and a verify key is the one
    that [api_for] gives back for them, and the sessions of all other
    keys stay as they were. *)
Theorem registered_session_is_found
    {C : Collaborators} {K : Credentials} {R : Runtime}
    (Hkey : forall a b : SyftVerifyKey, verify_key_eqb a b = true <-> a = b)
    (r : api_registry) (n : UID) (k : SyftVerifyKey) (api : SyftAPI) :
  api_for (set_api_for r n k api) n k = Some api
  /\ forall n' k', (n', k') <> (n, k) ->
       api_for (set_api_for r n k api) n' k' = api_for r n' k'.
Proof.
  split; [now apply api_for_set_same|].
  intros n' k' Hne. now apply api_for_set_other.
Qed.

Lemma byte_eqb_eq (a b : Byte.byte) : Byte.eqb a b = true <-> a = b.
Proof.
  split; [apply Byte.byte_dec_bl | apply Byte.byte_dec_lb].
Qed.

Lemma registered_session_is_found_witness :
  api_for (set_api_for [((7, Byte.x01), Sample.offline)] 7 Byte.x02 Sample.echo)
          7 Byte.x02
  = Some Sample.echo
  /\ api_for (set_api_for [((7, Byte.x01), Sample.offline)] 7 Byte.x02 Sample.echo)
             7 Byte.x01
     = Some Sample.offline.
Proof.
  destruct (@registered_session_is_found Example.collaborators Example.keys
              Sample.runtime byte_eqb_eq
              [((7, Byte.x01), Sample.offline)] 7 Byte.x02 Sample.echo)
    as [Hsame Hother].
  split; [exact Hsame|].
  rewrite (Hother 7 Byte.x01); [reflexivity | discriminate].
Defined.

(** X2.  [get_by_recent_node_uid] answers [None] exactly when no key of
    the registry is of that node; otherwise it answers the session of
    the key of that node that was inserted last. *)
Theorem recent_session_of_node
    {C : Collaborators} {K : Credentials} {R : Runtime}
    (r : api_registry) (n : UID) :
  (get_by_recent_node_uid r n = None
   <-> forall k api, ~ In ((n, k), api) r)
  /\ forall api,
       get_by_recent_node_uid r n = Some api ->
       exists before k after,
         r = before ++ ((n, k), api) :: after
         /\ forall k' api', ~ In ((n, k'), api') after.
Proof.
  rewrite recent_unfold. split.
  - destruct (find (of_node n) (rev r)) as [[key api]|] eqn:E; simpl.
    + split; [discriminate|]. intros H. exfalso.
      destruct (recent_some r n _ E) as (before & after & -> & Hn & _).
      destruct key as [n' k]. unfold of_node in Hn. simpl in Hn.
      apply Nat.eqb_eq in Hn. subst n'.
      apply (H k api). apply in_or_app. right. now left.
    + split; [|reflexivity]. intros _ k api Hin.
      pose proof (proj1 (recent_none r n) E _ Hin) as Hn.
      unfold of_node in Hn. simpl in Hn. now rewrite Nat.eqb_refl in Hn.
  - intros api. destruct (find (of_node n) (rev r)) as [[key api0]|] eqn:E;
      simpl; [|discriminate].
    intros [= ->].
    destruct (recent_some r n _ E) as (before & after & -> & Hn & Hafter).
    destruct key as [n' k]. unfold of_node in Hn. simpl in Hn.
    apply Nat.eqb_eq in Hn. subst n'.
    exists before, k, after. split; [reflexivity|].
    intros k' api' Hin. specialize (Hafter _ Hin).
    unfold of_node in Hafter. simpl in Hafter. now rewrite Nat.eqb_refl in Hafter.
Qed.

(** X3.  Registering under a new key appends it; registering again
    under a known key replaces the session in place, so the key keeps
    its age: when a key of the same node was inserted after it, that
    later key still gives the most recent session of the node. *)
Theorem registering_again_keeps_the_place
    {C : Collaborators} {K : Credentials} {R : Runtime}
    (Hkey : forall a b : SyftVerifyKey, verify_key_eqb a b = true <-> a = b)
    (r : api_registry) (n : UID) (k : SyftVerifyKey) (api : SyftAPI) :
  (api_for r n k = None -> set_api_for r n k api = r ++ [((n, k), api)])
  /\ forall old,
       api_for r n k = Some old ->
       exists before after,
         r = before ++ ((n, k), old) :: after
         /\ set_api_for r n k api = before ++ ((n, k), api) :: after
         /\ ((exists k' api', In ((n, k'), api') after) ->
             get_by_recent_node_uid (set_api_for r n k api) n
             = get_by_recent_node_uid after n).
Proof.
  split; [apply set_api_for_new|].
  intros old Hold.
  destruct (set_api_for_known Hkey r n k old api Hold) as (before & after & Hr & _ & Hset).
  exists before, after. split; [exact Hr|]. split; [exact Hset|].
  intros (k' & api' & Hin). rewrite Hset, !recent_unfold.
  rewrite rev_app_distr. simpl. rewrite <- app_assoc.
  destruct (find (of_node n) (rev after)) as [item|] eqn:E.
  - rewrite (find_app_some n _ _ _ E).
    unfold registry_key in *. now rewrite E.
  - exfalso. pose proof (proj1 (recent_none after n) E _ Hin) as Hn.
    unfold of_node in Hn. simpl in Hn. now rewrite Nat.eqb_refl in Hn.
Qed.

(** Two keys of node 7; the older one is registered again. *)
Lemma registering_again_keeps_the_place_witness :
  exists before after,
    [((7, Byte.x01), Sample.offline); ((7, Byte.x02), Sample.echo)]
    = before ++ ((7, Byte.x01), Sample.offline) :: after
    /\ set_api_for [((7, Byte.x01), Sample.offline); ((7, Byte.x02), Sample.echo)]
                   7 Byte.x01 Sample.careless
       = before ++ ((7, Byte.x01), Sample.careless) :: after
    /\ ((exists k' api', In ((7, k'), api') after) ->
        get_by_recent_node_uid
          (set_api_for [((7, Byte.x01), Sample.offline); ((7, Byte.x02), Sample.echo)]
                       7 Byte.x01 Sample.careless) 7
        = get_by_recent_node_uid after 7).
Proof.
  exact (proj2 (@registering_again_keeps_the_place Example.collaborators
                  Example.keys Sample.runtime byte_eqb_eq
                  [((7, Byte.x01), Sample.offline); ((7, Byte.x02), Sample.echo)]
                  7 Byte.x01 Sample.careless) Sample.offline eq_refl).
Defined.

(** ** The cached payload and the transport path *)

(** X4.  The payload of an envelope is decoded once: after the first
    access every later access gives the same payload and leaves the
    envelope as it is, the key, the signature and the bytes are never
    touched, and the payload stays the same even when the bytes of the
    envelope are replaced afterwards. *)
Theorem message_is_decoded_once
    {C : Collaborators} {K : Credentials} {R : Runtime} (e : SignedSyftAPICall) :
  message (snd (message e)) = message e
  /\ cached_deseralized_message (snd (message e)) = Some (fst (message e))
  /\ credentials (snd (message e)) = credentials e
  /\ signature (snd (message e)) = signature e
  /\ serialized_message (snd (message e)) = serialized_message e
  /\ forall b, fst (message (with_serialized_message (snd (message e)) b))
               = fst (message e).
Proof.
  unfold message. destruct e as [vk sg bs [m|]]; simpl; repeat split.
Qed.

(** X5.  When the codec decodes what it encoded of a call, the payload
    of the envelope that [sign] makes of that call is the call, and the
    envelope is valid when the scheme verifies what it signed. *)
Theorem signed_call_decodes_to_the_call
    {C : Collaborators} {K : Credentials} {R : Runtime}
    (call : SyftAPICall) (key : SyftSigningKey) :
  _deserialize (_serialize call) = call ->
  verifies (verify_key key) (_serialize call) (signature_of key (_serialize call)) = true ->
  fst (message (sign call key)) = call
  /\ is_valid (snd (message (sign call key))) = SyftSuccess "Credentials are valid".
Proof.
  intros Hcodec Hverify. unfold message, is_valid. simpl. now rewrite Hcodec, Hverify.
Qed.

Lemma signed_call_decodes_to_the_call_witness :
  fst (message (R:=Sample.runtime) (sign Example.a_call Example.a_key)) = Example.a_call.
Proof.
  exact (proj1 (@signed_call_decodes_to_the_call Example.collaborators Example.keys
                  Sample.runtime Example.a_call Example.a_key eq_refl eq_refl)).
Defined.

Section TransportFacts.
Context {C : Collaborators} {K : Credentials} {R : Runtime}.


End TransportFacts.



(** X7.  A reply that is not signed, or whose signature does not verify
    under the key it carries, is not opened: the call returns the
    matching [SyftError] as a value, and the refresh callback is not
    called. *)
Theorem bad_reply_is_rejected
    {C : Collaborators} {K : Credentials} {R : Runtime}
    (self : SyftAPI) (api_call : SyftAPICall) (key : SyftSigningKey)
    (connection_make_call : SignedSyftAPICall -> reply) :
  api_signing_key self = Some key ->
  api_connection self = Some connection_make_call ->
  (forall result,
      connection_make_call (sign api_call key) = Unsigned result ->
      SyftAPI_make_call self api_call
      = ([Sent (sign api_call key)],
         Returned (RError (SyftError "The result is not signed"))))
  /\ (forall e,
        connection_make_call (sign api_call key) = Signed e ->
        verifies (credentials e) (serialized_message e) (signature e) = false ->
        SyftAPI_make_call self api_call
        = ([Sent (sign api_call key)],
           Returned (RError (SyftError "The result signature is invalid")))).
Proof.
  intros Hkey Hconn. unfold SyftAPI_make_call. rewrite Hkey, Hconn. split.
  - intros result ->. reflexivity.
  - intros e -> Hbad. unfold debox_signed_syftapicall_response, is_valid.
    now rewrite Hbad.
Qed.

Lemma bad_reply_is_rejected_witness :
  SyftAPI_make_call Sample.careless Example.a_call
  = ([Sent (sign Example.a_call Example.a_key)],
     Returned (RError (SyftError "The result is not signed"))).
Proof.
  exact (proj1 (@bad_reply_is_rejected Example.collaborators Example.keys
                  Sample.runtime Sample.careless Example.a_call Example.a_key
                  (fun _ => Unsigned (C:=Example.collaborators) (Example.VInt 1))
                  eq_refl eq_refl)
               (Example.VInt 1) eq_refl).
Defined.

(** X8.  The refresh callback is called exactly when one is set and the
    reply is signed and valid and holds an [Ok] whose content changes a
    user-code status; the call then returns that content. *)
Theorem refresh_only_after_a_status_change
    {C : Collaborators} {K : Credentials} {R : Runtime}
    (self : SyftAPI) (api_call : SyftAPICall) :
  In Refreshed (fst (SyftAPI_make_call self api_call))
  <-> exists key connection_make_call e res,
        api_signing_key self = Some key
        /\ api_connection self = Some connection_make_call
        /\ connection_make_call (sign api_call key) = Signed e
        /\ is_valid e = SyftSuccess "Credentials are valid"
        /\ as_OkErr (message_data e) = Some (inl res)
        /\ changes_user_code_status res = true
        /\ api_refresh_api_callback self = true
        /\ snd (SyftAPI_make_call self api_call) = Returned (RValue res).
Proof.
  unfold SyftAPI_make_call, debox_signed_syftapicall_response, update_api. split.
  - destruct (api_signing_key self) as [key|]; [|intros []].
    destruct (api_connection self) as [conn|]; [|intros []].
    destruct (conn (sign api_call key)) as [e|v] eqn:Hreply;
      [|simpl; intros [H|[]]; discriminate H].
    destruct (is_valid e) as [msg|msg] eqn:Hvalid; simpl;
      [intros [H|[]]; discriminate H|].
    destruct (as_OkErr (message_data e)) as [[res|err]|] eqn:Hok;
      try (simpl; intros [H|[]]; discriminate H).
    destruct (changes_user_code_status res) eqn:Hch; simpl;
      [|intros [H|[]]; discriminate H].
    destruct (api_refresh_api_callback self) eqn:Hcb; simpl;
      [|intros [H|[]]; discriminate H].
    intros _. exists key, conn, e, res. rewrite ?Hok. repeat split; try assumption.
    unfold is_valid in *. destruct (verifies _ _ _); [reflexivity | discriminate].
  - intros (key & conn & e & res & Hkey & Hconn & Hreply & Hvalid & Hok & Hch & Hcb & _).
    rewrite Hkey, Hconn, Hreply, Hvalid. simpl. rewrite Hok, Hch, Hcb.
    simpl. right. now left.
Qed.

(** ** Functions of user code *)

(** X9.  A function that [generate_remote_function] makes a user-code
    function has the path [code.call] and an id among its pre-bound
    arguments; unless that id is [None], asking for its jobs dispatches
    exactly one blocking call of [job.get_by_user_code_id] on the node
    of the function, with the id as its only argument, and returns what
    the transport answers.  With the id [None] nothing is dispatched. *)
Theorem user_code_function_asks_for_its_jobs
    {C : Collaborators} {K : Credentials} {R : Runtime}
    (node_uid : UID) (sig : Signature) (path : string)
    (make_call : SyftAPICall -> value) (pre_kwargs : option (dict value))
    (communication_protocol : value) (warning : option APIEndpointWarning)
    (f : RemoteFunction) :
  generate_remote_function node_uid sig path make_call pre_kwargs
    communication_protocol warning = Returned f ->
  rf_user_code f = true ->
  path = "code.call"%string
  /\ exists uid,
       user_code_id f = Some uid
       /\ (is_None uid = false ->
           let api_call :=
             {| call_node_uid := node_uid;
                call_path := "job.get_by_user_code_id";
                call_args := [uid];
                call_kwargs := [];
                call_blocking := true |} in
           jobs f = ([NewCall api_call; MakeCall api_call], RValue (make_call api_call)))
       /\ (is_None uid = true ->
           jobs f = ([], RError (SyftError "Could not find user_code_id"))).
Proof.
  unfold generate_remote_function.
  destruct (has_parameter "blocking" sig); [discriminate|].
  intros [= <-]. simpl. intros Huc.
  apply andb_true_iff in Huc. destruct Huc as [Hpath Hmem].
  apply String.eqb_eq in Hpath. split; [exact Hpath|].
  destruct pre_kwargs as [pre|]; [|discriminate].
  apply dict_mem_true in Hmem. destruct Hmem as [uid Huid].
  exists uid. unfold jobs, user_code_id. simpl.
  destruct pre as [|kv pre']; [discriminate|]. rewrite Huid.
  split; [reflexivity|]. split; intros ->; reflexivity.
Qed.

Lemma user_code_function_asks_for_its_jobs_witness :
  exists f,
    generate_remote_function 7 Example.f_x_int "code.call" Example.send
      (Some [("uid"%string, Example.VInt 42)]) (Example.VInt 3) None = Returned f
    /\ jobs (R:=Sample.runtime) f
       = ([NewCall (@mkSyftAPICall Example.collaborators 7 "job.get_by_user_code_id"
                      [Example.VInt 42] [] true);
           MakeCall (@mkSyftAPICall Example.collaborators 7 "job.get_by_user_code_id"
                       [Example.VInt 42] [] true)],
          RValue (Example.VStr "job.get_by_user_code_id")).
Proof.
  eexists. split; [reflexivity|].
  destruct (@user_code_function_asks_for_its_jobs Example.collaborators Example.keys
              Sample.runtime 7 Example.f_x_int "code.call" Example.send
              (Some [("uid"%string, Example.VInt 42)]) (Example.VInt 3) None _
              eq_refl eq_refl)
    as (_ & uid & Huid & Hjobs & _).
  injection Huid as <-. exact (Hjobs eq_refl).
Defined.

(** ** Node identities *)

(** X10.  Two node identities that compare equal have the same hash,
    when the comparison of verify keys decides their equality; nothing
    of another class equals a node identity; and the hash does not look
    at the node id, so two identities of different nodes with one name
    and key are unequal and hash alike. *)
Theorem equal_identities_hash_alike
    {C : Collaborators} {K : Credentials} {R : Runtime}
    (Hkey : forall a b, verify_key_eqb a b = true <-> a = b)
    (a b : NodeIdentity) :
  (NodeIdentity_eq a (Some b) = true <-> a = b)
  /\ (NodeIdentity_eq a (Some b) = true -> NodeIdentity_hash a = NodeIdentity_hash b)
  /\ NodeIdentity_eq a None = false
  /\ (ni_node_name a = ni_node_name b -> ni_verify_key a = ni_verify_key b ->
      ni_node_id a <> ni_node_id b ->
      NodeIdentity_eq a (Some b) = false
      /\ NodeIdentity_hash a = NodeIdentity_hash b).
Proof.
  assert (Heq : NodeIdentity_eq a (Some b) = true <-> a = b).
  { unfold NodeIdentity_eq. rewrite !andb_true_iff, String.eqb_eq, Hkey, Nat.eqb_eq.
    destruct a, b; simpl. split.
    - intros [[-> ->] ->]. reflexivity.
    - intros [= -> -> ->]. auto. }
  split; [exact Heq|]. split; [|split; [reflexivity|]].
  - intros H. apply Heq in H. now subst.
  - intros Hn Hk Hid. split.
    + apply not_true_is_false. intros E. apply Heq in E. subst. contradiction.
    + unfold NodeIdentity_hash. now rewrite Hn, Hk.
Qed.

Lemma equal_identities_hash_alike_witness :
  NodeIdentity_eq (R:=Sample.runtime) (mkNodeIdentity (K:=Example.keys) "alice" 7 Byte.x01)
    (Some (mkNodeIdentity (K:=Example.keys) "alice" 8 Byte.x01)) = false
  /\ NodeIdentity_hash (R:=Sample.runtime) (mkNodeIdentity (K:=Example.keys) "alice" 7 Byte.x01)
     = NodeIdentity_hash (R:=Sample.runtime) (mkNodeIdentity (K:=Example.keys) "alice" 8 Byte.x01).
Proof.
  refine (proj2 (proj2 (proj2
    (@equal_identities_hash_alike Example.collaborators Example.keys Sample.runtime
       byte_eqb_eq (mkNodeIdentity (K:=Example.keys) "alice" 7 Byte.x01)
       (mkNodeIdentity (K:=Example.keys) "alice" 8 Byte.x01)))) eq_refl eq_refl _).
  simpl. lia.
Defined.

(** ** More on the validation *)

Section ValidationFacts.
Context {C : Collaborators}.

Lemma dict_set_fresh (k : string) (v : value) (d : dict value) :
  ~ In k (dict_keys d) -> dict_set k v d = d ++ [(k, v)].
Proof.
  induction d as [|[k' v'] d IH]; simpl; intros Hnotin; [reflexivity|].
  destruct (String.eqb k k') eqn:E.
  - apply String.eqb_eq in E. subst k'. exfalso. apply Hnotin. now left.
  - f_equal. apply IH. intros Hin. apply Hnotin. now right.
Qed.

Lemma dict_update_fresh (acc items : dict value) :
  NoDup (dict_keys acc ++ dict_keys items) -> dict_update acc items = acc ++ items.
Proof.
  unfold dict_update. revert acc.
  induction items as [|[k v] items IH]; intros acc Hnd; simpl.
  - now rewrite app_nil_r.
  - simpl in Hnd. rewrite dict_set_fresh.
    + rewrite IH.
      * now rewrite <- app_assoc.
      * unfold dict_keys in *. rewrite map_app. simpl. rewrite <- app_assoc. exact Hnd.
    + apply NoDup_remove_2 in Hnd. intros Hin. apply Hnd. apply in_or_app. now left.
Qed.

Lemma validate_kwargs_valid (sig : Signature) (items acc kw : dict value) :
  validate_kwargs sig items acc = Valid kw <->
  keywords_pass sig items /\ kw = dict_update acc items.
Proof.
  split.
  - revert acc. induction items as [|[k v] items IH]; intros acc; simpl.
    + intros [= <-]. split; [intros ? ? [] | reflexivity].
    + destruct (get_parameter k sig) as [p|] eqn:Hp; [|discriminate].
      destruct (kwarg_type_ok v (kwarg_annotation p)) eqn:Hok; [|discriminate].
      intros H. apply IH in H. destruct H as [Hpass ->]. split; [|reflexivity].
      intros k' v' [[= <- <-] | Hin]; [eauto | now apply Hpass].
  - intros [Hpass ->].
    rewrite <- (app_nil_r items) at 1. now rewrite validate_kwargs_app.
Qed.




Lemma validate_args_prefix (params : list Param) (args : list value)
    (_valid_kwargs : dict value) (_valid_args : list value) (n : nat) :
  validate_args params args _valid_kwargs = Valid _valid_args ->
  exists shorter rest,
    validate_args params (firstn n args) _valid_kwargs = Valid shorter
    /\ _valid_args = shorter ++ rest.
Proof.
  revert args _valid_args n.
  induction params as [|p ps IH]; intros args l n.
  - destruct args, n; simpl; intros [= <-]; exists [], []; auto.
  - destruct args as [|a args]; [destruct n; simpl; intros [= <-]; exists [], []; auto|].
    destruct n as [|n]; [simpl firstn; intros _; exists [], l; auto|].
    simpl.
    assert (Hcont : match validate_args ps args _valid_kwargs with
                    | Valid l' => Valid (a :: l')
                    | other => other
                    end = Valid l ->
                    exists shorter rest,
                      match validate_args ps (firstn n args) _valid_kwargs with
                      | Valid l' => Valid (a :: l')
                      | other => other
                      end = Valid shorter /\ l = shorter ++ rest).
    { destruct (validate_args ps args _valid_kwargs) as [l'| |] eqn:E; try discriminate.
      intros [= <-]. destruct (IH _ _ n E) as (shorter & rest & -> & ->).
      exists (a :: shorter), rest. auto. }
    destruct (dict_mem (param_name p) _valid_kwargs); [apply IH|].
    destruct (arg_type_ok a (param_annotation p)); [exact Hcont|].
    destruct (param_annotation p) as [ty|]; [|exact Hcont].
    destruct (autoreload_ignores ty a) as [[|]|]; try discriminate. exact Hcont.
Qed.

Lemma arg_ok_kwarg_ok (val : value) (t : annotation) :
  arg_type_ok val t = true -> kwarg_type_ok val t = true.
Proof.
  unfold arg_type_ok, kwarg_type_ok. destruct t as [t|]; [|trivial].
  destruct (optional_alternatives t) as [alts|] eqn:Halts; [|trivial].
  destruct alts as [|v alts]; simpl.
  - destruct t as [c|m n args|s]; simpl in Halts; try discriminate.
    destruct (existsb is_NoneType args) eqn:E; [|discriminate].
    injection Halts as ->. discriminate.
  - destruct (issubclass_of_EmailStr v); [|discriminate]. now intros ->.
Qed.

Lemma kwarg_matches_one_sound (val : value) (alts : list pytype) :
  kwarg_matches_one val alts = true ->
  exists c, In (TClass c) alts
            /\ check_type val (if issubclass_EmailStr c then TClass str_class
                               else TClass c) = true.
Proof.
  induction alts as [|v alts IH]; simpl; [discriminate|].
  destruct v as [c|m n args|s]; simpl; try discriminate.
  destruct (check_type val _) eqn:Hck.
  - intros _. exists c. split; [now left | exact Hck].
  - intros H. destruct (IH H) as (c' & Hin & Hc'). exists c'. auto.
Qed.


End ValidationFacts.

(** X11.  The keywords that pass the validation are returned as they
    were given, in their order and with their values; and, when the
    signature has no parameter named [kwargs], they pass exactly when
    each of them is a parameter whose check accepts its value. *)
Theorem accepted_keywords_are_returned_as_given
    {C : Collaborators} (args : list value) (kwargs : dict value) (sig : Signature) :
  NoDup (dict_keys kwargs) ->
  (forall _valid_args _valid_kwargs,
      validate_callable_args_and_kwargs args kwargs sig
      = Valid (_valid_args, _valid_kwargs) ->
      _valid_kwargs = kwargs)
  /\ (has_parameter "kwargs" sig = false ->
      validate_kwargs sig kwargs [] = Valid kwargs <-> keywords_pass sig kwargs).
Proof.
  intros Hnd.
  assert (Hupd : dict_update [] kwargs = kwargs) by now apply dict_update_fresh.
  split.
  - intros va vk. unfold validate_callable_args_and_kwargs.
    destruct (has_parameter "kwargs" sig).
    + destruct (has_parameter "args" sig); [now intros [= _ <-]|].
      destruct (validate_args _ _ _); try discriminate. now intros [= _ <-].
    + destruct (validate_kwargs sig kwargs []) as [kw| |] eqn:E; try discriminate.
      apply validate_kwargs_valid in E. destruct E as [_ ->]. rewrite Hupd.
      destruct (has_parameter "args" sig); [now intros [= _ <-]|].
      destruct (validate_args _ _ _); try discriminate. now intros [= _ <-].
  - intros _. rewrite validate_kwargs_valid, Hupd. tauto.
Qed.

Lemma accepted_keywords_are_returned_as_given_witness :
  validate_kwargs (C:=Example.collaborators) Example.f_x_int_y_str
    [("y"%string, Example.VStr "b"); ("x"%string, Example.VInt 1)] []
  = Valid [("y"%string, Example.VStr "b"); ("x"%string, Example.VInt 1)]
  <-> keywords_pass (C:=Example.collaborators) Example.f_x_int_y_str
        [("y"%string, Example.VStr "b"); ("x"%string, Example.VInt 1)].
Proof.
  refine (proj2 (@accepted_keywords_are_returned_as_given Example.collaborators []
                   [("y"%string, Example.VStr "b"); ("x"%string, Example.VInt 1)]
                   Example.f_x_int_y_str _) eq_refl).
  repeat constructor; simpl; intuition discriminate.
Defined.

(** X12.  The validation never asks for an argument.  A call that
    passes still passes, with the same keywords, when positional
    arguments are taken away from its end, and what it keeps of the
    positional arguments is then a prefix of what it kept before; and a
    call without any argument passes for every signature. *)
Theorem missing_arguments_are_not_detected
    {C : Collaborators} (args : list value) (kwargs : dict value) (sig : Signature)
    (_valid_args : list value) (_valid_kwargs : dict value) :
  validate_callable_args_and_kwargs args kwargs sig = Valid (_valid_args, _valid_kwargs) ->
  (forall n, exists shorter rest,
      validate_callable_args_and_kwargs (firstn n args) kwargs sig
      = Valid (shorter, _valid_kwargs)
      /\ _valid_args = shorter ++ rest)
  /\ validate_callable_args_and_kwargs [] kwargs sig = Valid ([], _valid_kwargs)
  /\ validate_callable_args_and_kwargs [] [] sig = Valid ([], []).
Proof.
  unfold validate_callable_args_and_kwargs.
  assert (Hnil : forall params kw, validate_args params [] kw = Valid []).
  { intros [|p ps] kw; reflexivity. }
  intros H. split; [|split].
  - intros n.
    destruct (if has_parameter "kwargs" sig then Valid kwargs
              else validate_kwargs sig kwargs []) as [kw| |]; try discriminate.
    destruct (has_parameter "args" sig).
    + injection H as <- <-. exists (firstn n args), (skipn n args).
      split; [reflexivity | now rewrite firstn_skipn].
    + destruct (validate_args (parameters sig) args kw) as [l| |] eqn:E; try discriminate.
      injection H as <- <-.
      destruct (validate_args_prefix _ _ _ _ n E) as (shorter & rest & -> & ->).
      exists shorter, rest. auto.
  - destruct (if has_parameter "kwargs" sig then Valid kwargs
              else validate_kwargs sig kwargs []) as [kw| |]; try discriminate.
    cbv beta iota in *. rewrite Hnil.
    destruct (has_parameter "args" sig).
    + now injection H as _ <-.
    + destruct (validate_args (parameters sig) args kw); try discriminate.
      now injection H as _ <-.
  - destruct (has_parameter "kwargs" sig), (has_parameter "args" sig); simpl;
      rewrite ?Hnil; reflexivity.
Qed.

(** [f(x: int, y: str)] called as [f(1, "b")], then as [f(1)] and [f()]. *)
Lemma missing_arguments_are_not_detected_witness :
  validate_callable_args_and_kwargs (C:=Example.collaborators)
    [Example.VInt 1; Example.VStr "b"] [] Example.f_x_int_y_str
  = Valid ([Example.VInt 1; Example.VStr "b"], [])
  /\ validate_callable_args_and_kwargs (C:=Example.collaborators)
       [] [] Example.f_x_int_y_str
     = Valid ([], []).
Proof.
  split; [reflexivity|].
  exact (proj1 (proj2 (@missing_arguments_are_not_detected Example.collaborators
                         [Example.VInt 1; Example.VStr "b"] [] Example.f_x_int_y_str
                         [Example.VInt 1; Example.VStr "b"] [] eq_refl))).
Defined.



(** X14.  On one and the same type the check of a keyword accepts every
    value that the check of a positional argument accepts; and a
    keyword accepted against an optional type matched one of its
    alternatives, a class, with [str] standing in for a subclass of
    [EmailStr]. *)
Theorem keyword_check_accepts_what_the_positional_check_accepts
    {C : Collaborators} (val : value) (t : pytype) :
  (arg_type_ok val (Some t) = true -> kwarg_type_ok val (Some t) = true)
  /\ (forall alts,
        optional_alternatives t = Some alts ->
        kwarg_type_ok val (Some t) = true ->
        exists c,
          In (TClass c) alts
          /\ check_type val (if issubclass_EmailStr c then TClass str_class
                             else TClass c) = true).
Proof.
  split; [apply arg_ok_kwarg_ok|].
  intros alts Halts. unfold kwarg_type_ok. rewrite Halts.
  apply kwarg_matches_one_sound.
Qed.

Lemma keyword_check_accepts_what_the_positional_check_accepts_witness :
  kwarg_type_ok (C:=Example.collaborators) (Example.VInt 1)
    (Some (Example.Optional (TClass int_class))) = true.
Proof.
  exact (proj1 (@keyword_check_accepts_what_the_positional_check_accepts
                  Example.collaborators (Example.VInt 1)
                  (Example.Optional (TClass int_class))) eq_refl).
Defined.



(** ** The downgrade of signatures *)

Section DowngradeFacts.
Context {C : Collaborators} {K : Credentials} {R : Runtime}.






Lemma migrate_parameters_names (object_versions : dict versions) (ps ps' : list Param) :
  migrate_parameters object_versions ps = Returned ps' ->
  map param_name ps' = map param_name ps
  /\ map param_kind_of ps' = map param_kind_of ps
  /\ Forall2 (fun p p' =>
                unwrap_and_migrate_annotation (param_annotation p) object_versions
                = Returned (param_annotation p')) ps ps'.
Proof.
  revert ps'. induction ps as [|p ps IH]; intros ps'; simpl.
  - intros [= <-]. auto.
  - destruct (unwrap_and_migrate_annotation (param_annotation p) object_versions)
      as [a|e] eqn:Ha; [|discriminate].
    destruct (migrate_parameters object_versions ps) as [l|e]; [|discriminate].
    intros [= <-]. destruct (IH l eq_refl) as (Hn & Hk & Hall). simpl.
    rewrite Hn, Hk. auto.
Qed.

End DowngradeFacts.

(** X16.  A signature that is downgraded keeps its parameters: their
    number, names, kinds and order, so a name is a parameter after the
    downgrade exactly when it was before; and each annotation, the
    return annotation too, is the migrated one of the annotation at the
    same place. *)
Theorem downgrade_keeps_the_parameters
    {C : Collaborators} {K : Credentials} {R : Runtime}
    (sig sig' : Signature) (object_versions : dict versions) :
  downgrade_signature sig object_versions = Returned sig' ->
  parameter_names sig' = parameter_names sig
  /\ map param_kind_of (parameters sig') = map param_kind_of (parameters sig)
  /\ (forall key, has_parameter key sig' = has_parameter key sig)
  /\ Forall2 (fun p p' =>
                unwrap_and_migrate_annotation (param_annotation p) object_versions
                = Returned (param_annotation p'))
             (parameters sig) (parameters sig')
  /\ unwrap_and_migrate_annotation (return_annotation sig) object_versions
     = Returned (return_annotation sig').
Proof.
  unfold downgrade_signature.
  destruct (migrate_parameters object_versions (parameters sig)) as [ps'|e] eqn:Hps;
    [|discriminate].
  destruct (unwrap_and_migrate_annotation (return_annotation sig) object_versions)
    as [r|e]; [|discriminate].
  intros [= <-]. apply migrate_parameters_names in Hps.
  destruct Hps as (Hn & Hk & Hall). unfold parameter_names. simpl.
  repeat split; try assumption.
  intros key. unfold has_parameter. simpl.
  assert (Hex : forall l, existsb (fun p => String.eqb key (param_name p)) l
                          = existsb (String.eqb key) (map param_name l)).
  { induction l as [|p l IHl]; simpl; [reflexivity | now rewrite IHl]. }
  now rewrite !Hex, Hn.
Qed.

(** [f(w: Optional[Widget], n: int) -> Widget] with versions 1 and 2 of
    [Widget] on the other side. *)
Lemma downgrade_keeps_the_parameters_witness :
  exists sig',
    downgrade_signature (R:=Sample.runtime) Sample.f_widget [("Widget"%string, [1; 2])]
    = Returned sig'
    /\ parameter_names sig' = ["w"; "n"]%string
    /\ return_annotation sig' = Some (TClass (Class "syft" "WidgetV2")).
Proof.
  eexists. split; [reflexivity|].
  split; [|reflexivity].
  exact (proj1 (@downgrade_keeps_the_parameters Example.collaborators Example.keys
                  Sample.runtime Sample.f_widget _ [("Widget"%string, [1; 2])] eq_refl)).
Defined.



(** ** The services of a session *)

Section ServiceFacts.
Context {C : Collaborators}.

Lemma hasattr_members (s : APIModule) (attr_name : string) :
  hasattr s attr_name = dict_mem attr_name (members s) || own_attr attr_name.
Proof.
  unfold hasattr, __getattribute__, object_getattribute, dict_mem, own_attr.
  destruct (dict_get attr_name (members s)); [reflexivity|].
  destruct (String.eqb attr_name "path"); [reflexivity|].
  destruct (String.eqb attr_name "_modules"); [reflexivity|].
  destruct (class_attr attr_name); reflexivity.
Qed.

Lemma rebinds_mem (s s' : APIModule) (k : string) (x : member) (k' : string) :
  rebinds s s' k x ->
  dict_mem k' (members s') = true <-> k' = k \/ dict_mem k' (members s) = true.
Proof.
  intros (_ & Hk & Hother). unfold dict_mem.
  destruct (String.eqb k' k) eqn:E.
  - apply String.eqb_eq in E. subst k'. rewrite Hk. tauto.
  - assert (Hne : k' <> k) by (intros ->; now rewrite String.eqb_refl in E).
    rewrite (Hother k' Hne). tauto.
Qed.

Lemma walk_root_members (s s' : APIModule) (mods : list string) (last : string)
    (x : member) (k : string) :
  add_route_walk s mods last x = Built s' ->
  dict_mem k (members s') = true
  <-> (exists rest, mods ++ [last] = k :: rest) \/ dict_mem k (members s) = true.
Proof.
  destruct mods as [|seg rest]; intros H.
  - apply walk_nil in H. destruct H as [_ H]. rewrite (rebinds_mem _ _ _ _ k H).
    simpl. split; (intros [Hk | Hm]; [left | now right]).
    + subst. eauto.
    + destruct Hk as [r [= -> _]]. reflexivity.
  - apply walk_cons in H. destruct H as (child & child' & _ & _ & H).
    rewrite (rebinds_mem _ _ _ _ k H).
    simpl. split; (intros [Hk | Hm]; [left | now right]).
    + subst. eauto.
    + destruct Hk as [r [= -> _]]. reflexivity.
Qed.

Lemma build_from_root_members (node_uid : UID) (make_call : SyftAPICall -> value)
    (proto : value) (endpoints : dict Endpoint) (tree tree' : APIModule) (k : string) :
  build_from node_uid make_call proto tree endpoints = Built tree' ->
  dict_mem k (members tree') = true
  <-> (exists key v rest, In (key, v) endpoints /\ leaf_route v = k :: rest)
      \/ dict_mem k (members tree) = true.
Proof.
  revert tree. induction endpoints as [|[key v] endpoints IH]; intros tree; simpl.
  - intros [= <-]. split; [now right|]. intros [(? & ? & ? & [] & _) | H]; exact H.
  - destruct (endpoint_function node_uid make_call proto v) as [f|e]; [|discriminate].
    destruct (_add_route tree v (Method f (doc_string v))) as [tree1| |] eqn:Hroute;
      try discriminate.
    intros H. rewrite (IH _ H).
    unfold _add_route in Hroute. rewrite (walk_root_members _ _ _ _ _ k Hroute).
    fold (leaf_route v). split.
    + intros [(key' & v' & rest & Hin & Hr) | [[rest Hr] | Hm]].
      * left. exists key', v', rest. auto.
      * left. exists key, v, rest. auto.
      * now right.
    + intros [(key' & v' & rest & [[= <- <-] | Hin] & Hr) | Hm].
      * right. left. eauto.
      * left. exists key', v', rest. auto.
      * right. now right.
Qed.

End ServiceFacts.

(** X18.  A session that has built its tree answers [has_service] from
    that tree, without building again.  A session that has not builds
    both trees first, and when that succeeds the answer is yes exactly
    for the first segments of the routes of its endpoints, and for the
    names of the attributes of the node object itself. *)
Theorem has_service_knows_the_first_segments
    {C : Collaborators} {K : Credentials}
    (self : SyftAPI) (make_call : SyftAPICall -> value) (service_name : string) :
  (forall tree,
      api_module self = Some tree ->
      has_service self make_call service_name
      = Built (hasattr tree service_name, self))
  /\ (forall answer self',
        api_module self = None ->
        has_service self make_call service_name = Built (answer, self') ->
        generate_endpoints self make_call = Built self'
        /\ (answer = true
            <-> own_attr service_name = true
                \/ exists key v rest,
                     In (key, v) (api_endpoints self)
                     /\ leaf_route v = service_name :: rest)).
Proof.
  unfold has_service, services. split.
  - intros tree ->. reflexivity.
  - intros answer self' ->.
    destruct (generate_endpoints self make_call) as [s1| |] eqn:Hgen; try discriminate.
    assert (Htree : exists tree,
               api_module s1 = Some tree
               /\ build_endpoint_tree (api_node_uid self) make_call (api_endpoints self)
                    (api_communication_protocol self) = Built tree).
    { unfold generate_endpoints in Hgen.
      destruct (match api_lib_endpoints self with
                | Some lib_endpoints =>
                    match build_endpoint_tree (api_node_uid self) make_call lib_endpoints
                            (api_communication_protocol self) with
                    | Built libs => Built (Some libs)
                    | Failed e => Failed e
                    | Stopped => Stopped
                    end
                | None => Built (api_libs self)
                end) as [libs| |]; cbv beta iota in Hgen; try discriminate.
      destruct (build_endpoint_tree (api_node_uid self) make_call (api_endpoints self)
                  (api_communication_protocol self)) as [tree| |]; try discriminate.
      injection Hgen as <-. exists tree. split; reflexivity. }
    destruct Htree as (tree & Hmod & Hbuild). rewrite Hmod.
    intros [= <- <-]. split; [reflexivity|].
    rewrite hasattr_members, orb_true_iff.
    unfold build_endpoint_tree in Hbuild.
    rewrite (build_from_root_members _ _ _ _ _ _ service_name Hbuild). simpl.
    unfold dict_mem. simpl. intuition discriminate.
Qed.

Lemma has_service_knows_the_first_segments_witness :
  exists self',
    has_service Sample.offline Example.send "dataset"
    = Built (true, self')
    /\ generate_endpoints Sample.offline Example.send = Built self'.
Proof.
  eexists. split; [reflexivity|].
  exact (proj1 (proj2 (@has_service_knows_the_first_segments Example.collaborators
                         Example.keys Sample.offline Example.send
                         "dataset") true _ eq_refl eq_refl)).
Defined.

(** ** Response messages *)

Section ResponseFacts.

Lemma response_eq_iff (a b : response) :
  response_eq a (inl b) = true
  <-> resp_message a = resp_message b
      /\ _bool a = _bool b
      /\ require_api_update a = require_api_update b.
Proof.
  unfold response_eq.
  rewrite !andb_true_iff, String.eqb_eq, !Bool.eqb_true_iff. tauto.
Qed.

Lemma truth_of_response (r : response) :
  response_truth r = _bool r /\ is_err r = negb (is_ok r).
Proof.
  unfold response_truth, _bool, is_err, is_ok. destruct (resp_class r); auto.
Qed.

End ResponseFacts.

(** X19.  The truth value of a message is the [_bool] of its class,
    also for [SyftError] and [SyftNotReady], whose [__bool__] is
    written out.  [is_err] is the negation of [is_ok].  The truth value
    and [is_ok] agree on every class but [SyftInfo], which is falsy and
    ok.  A message compares equal to its own truth value. *)
Theorem truth_value_of_a_response (r : response) :
  response_truth r = _bool r
  /\ is_err r = negb (is_ok r)
  /\ (response_truth r = is_ok r <-> resp_class r <> IsSyftInfo)
  /\ response_eq r (inr (response_truth r)) = true
  /\ response_truth (as_response (SyftError (resp_message r))) = false
  /\ response_truth (as_response (SyftSuccess (resp_message r))) = true.
Proof.
  unfold response_truth, _bool, is_err, is_ok, response_eq, _bool.
  destruct r as [[] msg upd]; simpl; repeat split;
    try discriminate; try (intros H; exfalso; now apply H); try congruence.
Qed.

(** X20.  The equality of two messages looks at the text, the [_bool]
    of the class and the update flag, never at the class itself: it is
    an equivalence, equal messages have the same truth value, and a
    message stays equal to itself under every class with the same
    [_bool], so that a [SyftError] equals the [SyftInfo] and the
    [SyftNotReady] of the same text, which differ from it in [is_err]
    or in what they print. *)
Theorem response_equality_ignores_the_class (a b c : response) :
  response_eq a (inl a) = true
  /\ response_eq a (inl b) = response_eq b (inl a)
  /\ (response_eq a (inl b) = true -> response_eq b (inl c) = true ->
      response_eq a (inl c) = true)
  /\ (response_eq a (inl b) = true -> response_truth a = response_truth b)
  /\ (forall k,
        _bool (mkResponse k (resp_message a) (require_api_update a)) = _bool a ->
        response_eq a (inl (mkResponse k (resp_message a) (require_api_update a))) = true)
  /\ (resp_class a = IsSyftError ->
      response_eq a (inl (mkResponse IsSyftInfo (resp_message a) (require_api_update a)))
      = true
      /\ is_err (mkResponse IsSyftInfo (resp_message a) (require_api_update a))
         <> is_err a
      /\ response_repr (mkResponse IsSyftInfo (resp_message a) (require_api_update a))
         <> response_repr a).
Proof.
  split; [apply response_eq_iff; auto|].
  split.
  { unfold response_eq. rewrite (String.eqb_sym (resp_message a)).
    destruct (_bool a), (_bool b), (require_api_update a), (require_api_update b);
      reflexivity. }
  split.
  { rewrite !response_eq_iff. intros (-> & -> & ->) (-> & -> & ->). auto. }
  split.
  { rewrite response_eq_iff. intros (_ & H & _).
    destruct (truth_of_response a) as [-> _], (truth_of_response b) as [-> _]. exact H. }
  split.
  { intros k Hk. apply response_eq_iff. simpl. auto. }
  intros Hclass. split; [|split].
  - apply response_eq_iff. simpl. unfold _bool. rewrite Hclass. auto.
  - unfold is_err. simpl. rewrite Hclass. discriminate.
  - unfold response_repr. simpl. rewrite Hclass. simpl. discriminate.
Qed.

Lemma response_equality_ignores_the_class_witness :
  response_eq (mkResponse IsSyftError "no" false)
              (inl (mkResponse IsSyftInfo "no" false)) = true
  /\ is_err (mkResponse IsSyftInfo "no" false)
     <> is_err (mkResponse IsSyftError "no" false).
Proof.
  destruct (response_equality_ignores_the_class
              (mkResponse IsSyftError "no" false) (mkResponse IsSyftError "no" false)
              (mkResponse IsSyftError "no" false))
    as (_ & _ & _ & _ & _ & H).
  destruct (H eq_refl) as (Heq & Herr & _). exact (conj Heq Herr).
Defined.

(** ** The assets of a model *)

Section AssetFacts.
Context {C : Collaborators} {M : ModelRuntime}.

Lemma with_assets_same (self : CreateModel) : with_assets self (asset_list self) = self.
Proof. now destruct self. Qed.

Lemma add_asset_loop_absent (self : CreateModel) (asset : CreateModelAsset)
    (force_replace : bool) (l : list CreateModelAsset) :
  ~ In (asset_name asset) (asset_names l) ->
  add_asset_loop self asset force_replace l
  = (l ++ [asset], Returned (asset_added self asset)).
Proof.
  induction l as [|e l IH]; simpl; intros Hnotin; [reflexivity|].
  destruct (String.eqb (asset_name e) (asset_name asset)) eqn:E.
  - apply String.eqb_eq in E. exfalso. apply Hnotin. now left.
  - rewrite IH; [reflexivity|]. intros Hin. apply Hnotin. now right.
Qed.

Lemma add_asset_loop_present (self : CreateModel) (asset : CreateModelAsset)
    (force_replace : bool) (l : list CreateModelAsset) :
  In (asset_name asset) (asset_names l) ->
  exists before existing_asset after,
    l = before ++ existing_asset :: after
    /\ asset_name existing_asset = asset_name asset
    /\ ~ In (asset_name asset) (asset_names before)
    /\ add_asset_loop self asset force_replace l
       = if force_replace
         then (before ++ asset :: after,
               SyftSuccess_positional
                 ("Asset " ++ asset_name asset ++ " has been successfully replaced."))
         else (l, Returned (asset_exists self asset)).
Proof.
  induction l as [|e l IH]; simpl; intros Hin; [contradiction|].
  destruct (String.eqb (asset_name e) (asset_name asset)) eqn:E.
  - apply String.eqb_eq in E. exists [], e, l. simpl.
    repeat split; auto. now destruct force_replace.
  - assert (Hne : asset_name e <> asset_name asset)
      by (intros Heq; rewrite Heq, String.eqb_refl in E; discriminate).
    destruct Hin as [Heq | Hin]; [contradiction|].
    destruct (IH Hin) as (before & x & after & -> & Hx & Hnotin & ->).
    exists (e :: before), x, after. simpl. repeat split; auto.
    + intros [Heq | Hin']; [contradiction | now apply Hnotin].
    + now destruct force_replace.
Qed.

Lemma asset_to_remove_absent (name : string) (l : list CreateModelAsset) :
  ~ In name (asset_names l) <-> asset_to_remove name l = None.
Proof.
  induction l as [|e l IH]; simpl; [tauto|].
  destruct (String.eqb (asset_name e) name) eqn:E.
  - apply String.eqb_eq in E. split; [intros H; exfalso; apply H; now left | discriminate].
  - assert (Hne : asset_name e <> name)
      by (intros Heq; rewrite Heq, String.eqb_refl in E; discriminate).
    destruct (asset_to_remove name l) as [[i a]|].
    + split; [|discriminate]. intros H. exfalso.
      assert (Hn : ~ In name (asset_names l)) by tauto.
      apply IH in Hn. discriminate.
    + split; [reflexivity|]. intros _ [Heq | Hin]; [contradiction|].
      now apply (proj2 IH).
Qed.

Lemma asset_to_remove_first (name : string) (l : list CreateModelAsset)
    (i : nat) (asset : CreateModelAsset) :
  asset_to_remove name l = Some (i, asset) ->
  exists before after,
    l = before ++ asset :: after
    /\ length before = i
    /\ asset_name asset = name
    /\ ~ In name (asset_names before).
Proof.
  revert i. induction l as [|e l IH]; simpl; intros i; [discriminate|].
  destruct (String.eqb (asset_name e) name) eqn:E.
  - apply String.eqb_eq in E. intros [= <- <-]. exists [], l. auto.
  - assert (Hne : asset_name e <> name)
      by (intros Heq; rewrite Heq, String.eqb_refl in E; discriminate).
    destruct (asset_to_remove name l) as [[j a]|]; [|discriminate].
    intros [= <- <-]. destruct (IH j eq_refl) as (before & after & -> & Hlen & Hn & Hnotin).
    exists (e :: before), after. simpl. repeat split; auto.
    intros [Heq | Hin]; [contradiction | now apply Hnotin].
Qed.

Lemma list_remove_first (x : CreateModelAsset) (before after : list CreateModelAsset) :
  (forall e, In e before -> asset_eqb e x = false) ->
  list_remove x (length before) (before ++ x :: after) = before ++ after.
Proof.
  induction before as [|e before IH]; simpl; intros Hne; [reflexivity|].
  rewrite (Hne e (or_introl eq_refl)). f_equal. apply IH. auto.
Qed.

Lemma add_asset_keeps_names (self : CreateModel) (asset : CreateModelAsset)
    (force_replace : bool) :
  ~ In (asset_name asset) (asset_names (asset_list self)) ->
  add_asset self asset force_replace
  = (with_assets self (asset_list self ++ [asset]), Returned (asset_added self asset))
  /\ asset_names (asset_list (fst (add_asset self asset force_replace)))
     = asset_names (asset_list self) ++ [asset_name asset].
Proof.
  intros Hnotin. unfold add_asset. rewrite add_asset_loop_absent by assumption.
  split; [reflexivity|]. simpl. unfold asset_names. now rewrite map_app.
Qed.

End AssetFacts.

(** X21.  Adding an asset never makes two assets of one name.  An asset
    of a new name goes to the end of the list.  An asset whose name is
    taken leaves the list as it is and is answered with an error, or,
    when the replacement is forced, takes the place of the first asset
    of that name; in both cases the names of the list are the same as
    before.  The name of the model, the citation and the URL are not
    touched. *)
Theorem add_asset_keeps_one_asset_per_name
    {C : Collaborators} {M : ModelRuntime}
    (self : CreateModel) (asset : CreateModelAsset) (force_replace : bool) :
  (~ In (asset_name asset) (asset_names (asset_list self)) ->
   add_asset self asset force_replace
   = (with_assets self (asset_list self ++ [asset]),
      Returned (asset_added self asset)))
  /\ (In (asset_name asset) (asset_names (asset_list self)) ->
      asset_names (asset_list (fst (add_asset self asset force_replace)))
      = asset_names (asset_list self)
      /\ (force_replace = false ->
          add_asset self asset force_replace
          = (self, Returned (asset_exists self asset)))
      /\ (force_replace = true ->
          exists before existing_asset after,
            asset_list self = before ++ existing_asset :: after
            /\ asset_name existing_asset = asset_name asset
            /\ ~ In (asset_name asset) (asset_names before)
            /\ asset_list (fst (add_asset self asset force_replace))
               = before ++ asset :: after))
  /\ (NoDup (asset_names (asset_list self)) ->
      NoDup (asset_names (asset_list (fst (add_asset self asset force_replace)))))
  /\ model_name (fst (add_asset self asset force_replace)) = model_name self
  /\ citation (fst (add_asset self asset force_replace)) = citation self
  /\ url (fst (add_asset self asset force_replace)) = url self.
Proof.
  assert (Habsent : ~ In (asset_name asset) (asset_names (asset_list self)) ->
                    add_asset self asset force_replace
                    = (with_assets self (asset_list self ++ [asset]),
                       Returned (asset_added self asset))).
  { intros Hnotin. unfold add_asset. now rewrite add_asset_loop_absent. }
  assert (Hpresent : In (asset_name asset) (asset_names (asset_list self)) ->
            exists before existing_asset after,
              asset_list self = before ++ existing_asset :: after
              /\ asset_name existing_asset = asset_name asset
              /\ ~ In (asset_name asset) (asset_names before)
              /\ add_asset self asset force_replace
                 = if force_replace
                   then (with_assets self (before ++ asset :: after),
                         SyftSuccess_positional
                           ("Asset " ++ asset_name asset
                            ++ " has been successfully replaced."))
                   else (self, Returned (asset_exists self asset))).
  { intros Hin.
    destruct (add_asset_loop_present self asset force_replace _ Hin)
      as (before & x & after & Hl & Hx & Hnotin & Hloop).
    exists before, x, after. repeat split; auto.
    unfold add_asset. rewrite Hloop. destruct force_replace; [reflexivity|].
    now rewrite with_assets_same. }
  assert (Hnames : In (asset_name asset) (asset_names (asset_list self)) ->
            asset_names (asset_list (fst (add_asset self asset force_replace)))
            = asset_names (asset_list self)).
  { intros Hin. destruct (Hpresent Hin) as (before & x & after & Hl & Hx & _ & ->).
    destruct force_replace; [|reflexivity]. simpl. rewrite Hl.
    unfold asset_names. rewrite !map_app. simpl. now rewrite Hx. }
  split; [exact Habsent|]. split; [|split].
  - intros Hin. split; [now apply Hnames|]. split.
    + intros ->. destruct (Hpresent Hin) as (_ & _ & _ & _ & _ & _ & ->). reflexivity.
    + intros ->. destruct (Hpresent Hin) as (before & x & after & Hl & Hx & Hn & ->).
      exists before, x, after. auto.
  - intros Hnd.
    destruct (in_dec string_dec (asset_name asset) (asset_names (asset_list self)))
      as [Hin | Hnotin].
    + now rewrite Hnames.
    + rewrite (Habsent Hnotin). simpl. unfold asset_names in *. rewrite map_app. simpl.
      apply NoDup_app; [exact Hnd | apply NoDup_one_key |].
      intros a Ha [<- | []]. contradiction.
  - unfold add_asset.
    destruct (add_asset_loop self asset force_replace (asset_list self)). auto.
Qed.

Lemma add_asset_keeps_one_asset_per_name_witness :
  add_asset (M:=Sample.model_runtime) Sample.a_model (Sample.asset "labels") false
  = (Sample.a_model,
     Returned (asset_exists Sample.a_model (Sample.asset "labels"))).
Proof.
  refine (proj1 (proj2 (proj1 (proj2
    (@add_asset_keeps_one_asset_per_name Example.collaborators Sample.model_runtime
       Sample.a_model (Sample.asset "labels") false)) _)) eq_refl).
  simpl. auto.
Defined.

(** X22.  Removing by a name that no asset has changes nothing and is
    answered with an error.  Otherwise, when equal assets have equal
    names, the first asset of that name goes and the others keep their
    order; the answer names the model twice and the asset not at all.
    So an asset of a new name that is added and then removed leaves the
    list as it was. *)
Theorem remove_asset_takes_the_first_of_the_name
    {C : Collaborators} {M : ModelRuntime}
    (Heq : forall a b, asset_eqb a b = true -> asset_name a = asset_name b)
    (self : CreateModel) (name : string) :
  (~ In name (asset_names (asset_list self)) ->
   remove_asset self name = (self, SyftError ("No asset exists with name: " ++ name)))
  /\ (In name (asset_names (asset_list self)) ->
      exists before asset after,
        asset_list self = before ++ asset :: after
        /\ asset_name asset = name
        /\ ~ In name (asset_names before)
        /\ remove_asset self name
           = (with_assets self (before ++ after),
              SyftSuccess ("Asset '" ++ model_name self ++ "' removed from '"
                           ++ model_name self ++ "' Model.")))
  /\ (forall asset force_replace,
        asset_name asset = name ->
        ~ In name (asset_names (asset_list self)) ->
        fst (remove_asset (fst (add_asset self asset force_replace)) name) = self).
Proof.
  assert (Hpresent : forall s : CreateModel,
            In name (asset_names (asset_list s)) ->
            exists before asset after,
              asset_list s = before ++ asset :: after
              /\ asset_name asset = name
              /\ ~ In name (asset_names before)
              /\ remove_asset s name
                 = (with_assets s (before ++ after),
                    SyftSuccess ("Asset '" ++ model_name s ++ "' removed from '"
                                 ++ model_name s ++ "' Model."))).
  { intros s Hin. unfold remove_asset.
    destruct (asset_to_remove name (asset_list s)) as [[i asset]|] eqn:E.
    - destruct (asset_to_remove_first _ _ _ _ E)
        as (before & after & Hl & Hlen & Hn & Hnotin).
      exists before, asset, after. repeat split; auto.
      rewrite Hl, <- Hlen, list_remove_first; [reflexivity|].
      intros e He. destruct (asset_eqb e asset) eqn:Eeq; [|reflexivity].
      exfalso. apply Hnotin. apply Heq in Eeq. rewrite <- Hn, <- Eeq.
      unfold asset_names. now apply in_map.
    - apply asset_to_remove_absent in E. contradiction. }
  split; [|split].
  - intros Hnotin. unfold remove_asset.
    now rewrite (proj1 (asset_to_remove_absent name (asset_list self)) Hnotin).
  - apply Hpresent.
  - intros asset force_replace Hname Hnotin. subst name.
    destruct (add_asset_keeps_names self asset force_replace Hnotin) as [Hadd _].
    rewrite Hadd. simpl.
    destruct (Hpresent (with_assets self (asset_list self ++ [asset])))
      as (before & x & after & Hl & Hx & Hn & ->).
    { simpl. unfold asset_names. rewrite map_app. apply in_or_app. right. now left. }
    simpl in *.
    assert (Hsplit : before = asset_list self /\ after = []).
    { clear - Hl Hx Hn Hnotin. revert before Hl Hn.
      induction (asset_list self) as [|e l IH]; intros before Hl Hn; simpl in *.
      - destruct before as [|b before]; simpl in *.
        + injection Hl as _ <-. auto.
        + injection Hl as <- Hl. destruct before; discriminate.
      - destruct before as [|b before]; simpl in *.
        + injection Hl as <- _. exfalso. apply Hnotin. left. exact Hx.
        + injection Hl as <- Hl.
          destruct (IH (fun H => Hnotin (or_intror H)) before Hl
                       (fun H => Hn (or_intror H))) as [-> ->]. auto. }
    destruct Hsplit as [-> ->]. rewrite app_nil_r. simpl.
    unfold with_assets. simpl. now destruct self.
Qed.

Lemma remove_asset_takes_the_first_of_the_name_witness :
  fst (remove_asset (M:=Sample.model_runtime)
         (fst (add_asset (M:=Sample.model_runtime) Sample.a_model
                 (Sample.asset "bias") false)) "bias")
  = Sample.a_model.
Proof.
  refine (proj2 (proj2
    (@remove_asset_takes_the_first_of_the_name Example.collaborators
       Sample.model_runtime _ Sample.a_model "bias"))
    (Sample.asset "bias") false eq_refl _).
  - intros a b H. apply String.eqb_eq. exact H.
  - simpl. intuition discriminate.
Defined.

(** ** The list of names of a namespace *)

Section ModulesFacts.
Context {C : Collaborators}.

Lemma dict_mem_set (k k' : string) (x : member) (d : dict member) :
  dict_mem k (dict_set k' x d) = true <-> k = k' \/ dict_mem k d = true.
Proof.
  unfold dict_mem. destruct (String.eqb k k') eqn:E.
  - apply String.eqb_eq in E. subst k'. rewrite dict_get_set_same. tauto.
  - assert (Hne : k <> k') by (intros ->; now rewrite String.eqb_refl in E).
    rewrite dict_get_set_other by assumption. tauto.
Qed.

Lemma add_submodule_lists (s s' : APIModule) (attr_name : string) (x : member) :
  _add_submodule s attr_name x = Built s' ->
  lists_its_members s -> lists_its_members s'.
Proof.
  unfold _add_submodule. destruct (own_attr attr_name); [discriminate|].
  intros [= <-] Hs k. simpl. rewrite in_app_iff, dict_mem_set, (Hs k). simpl.
  intuition congruence.
Qed.

Lemma walk_lists (s s' : APIModule) (mods : list string) (last : string) (x : member) :
  add_route_walk s mods last x = Built s' ->
  lists_its_members s -> lists_its_members s'.
Proof.
  destruct mods as [|seg rest]; simpl; [apply add_submodule_lists|].
  destruct (hasattr s seg) eqn:Hhas.
  - unfold __getattribute__, object_getattribute.
    destruct (dict_get seg (members s)) as [[child|f d]|] eqn:Hget.
    + destruct (add_route_walk child rest last x) as [child'| |]; try discriminate.
      intros [= <-] Hs k. simpl. rewrite dict_mem_set, (Hs k).
      split; [now right|]. intros [-> | H]; [|exact H].
      unfold dict_mem. now rewrite Hget.
    + discriminate.
    + destruct (String.eqb seg "path"); [discriminate|].
      destruct (String.eqb seg "_modules"); [discriminate|].
      destruct (class_attr seg); discriminate.
  - match goal with
    | |- context [_add_submodule s seg ?m] =>
        destruct (_add_submodule s seg m) as [s1| |] eqn:Hadd; try discriminate
    end.
    pose proof (add_submodule_lists _ _ _ _ Hadd) as Hlists.
    destruct (__getattribute__ s1 seg) as [[[child|f d]|p|ms|n]|e]; try discriminate.
    destruct (add_route_walk child rest last x) as [child'| |]; try discriminate.
    intros [= <-] Hs k. simpl. rewrite dict_mem_set, (Hlists Hs k).
    split; [now right|]. intros [-> | H]; [|exact H].
    unfold _add_submodule in Hadd. destruct (own_attr seg); [discriminate|].
    injection Hadd as <-. simpl. apply dict_mem_set. now left.
Qed.

Lemma build_from_lists (node_uid : UID) (make_call : SyftAPICall -> value)
    (proto : value) (endpoints : dict Endpoint) (tree tree' : APIModule) :
  build_from node_uid make_call proto tree endpoints = Built tree' ->
  lists_its_members tree -> lists_its_members tree'.
Proof.
  revert tree. induction endpoints as [|[key v] endpoints IH]; intros tree; simpl.
  - now intros [= <-].
  - destruct (endpoint_function node_uid make_call proto v) as [f|e]; [|discriminate].
    destruct (_add_route tree v (Method f (doc_string v))) as [tree1| |] eqn:Hroute;
      try discriminate.
    intros H Hs. apply (IH _ H). exact (walk_lists _ _ _ _ _ Hroute Hs).
Qed.

End ModulesFacts.

(** X23.  In a tree that was built, the names that the root lists in
    [_modules], which is what the session prints, are exactly the first
    segments of the routes of the endpoints, each of them a member of
    the root. *)
Theorem root_lists_the_first_segments
    {C : Collaborators} (node_uid : UID) (make_call : SyftAPICall -> value)
    (endpoints : dict Endpoint) (communication_protocol : value)
    (tree : APIModule) (k : string) :
  build_endpoint_tree node_uid make_call endpoints communication_protocol = Built tree ->
  (In k (_modules tree) <-> dict_mem k (members tree) = true)
  /\ (In k (_modules tree)
      <-> exists key v rest, In (key, v) endpoints /\ leaf_route v = k :: rest).
Proof.
  unfold build_endpoint_tree. intros Hbuild.
  assert (Hlists : lists_its_members tree).
  { apply (build_from_lists _ _ _ _ _ _ Hbuild). intros k'. simpl. unfold dict_mem. simpl.
    split; [intros [] | discriminate]. }
  split; [apply Hlists|].
  rewrite (Hlists k), (build_from_root_members _ _ _ _ _ _ k Hbuild).
  unfold dict_mem. simpl. intuition discriminate.
Qed.

Lemma root_lists_the_first_segments_witness :
  exists tree,
    build_endpoint_tree 7 Example.send Example.some_endpoints (Example.VInt 3)
    = Built tree
    /\ (In "code"%string (_modules tree)
        <-> exists key v rest,
              In (key, v) Example.some_endpoints
              /\ leaf_route v = "code"%string :: rest).
Proof.
  eexists. split; [reflexivity|].
  exact (proj2 (@root_lists_the_first_segments Example.collaborators 7 Example.send
                  Example.some_endpoints (Example.VInt 3) _ "code" eq_refl)).
Defined.

(** ** The check of a model and the permission texts *)

(** X24.  The check of a model never reports an error: the check of an
    asset always succeeds, so the list of errors stays empty whatever
    the assets are. *)
Theorem model_check_never_fails
    {C : Collaborators} {M : ModelRuntime} (self : CreateModel) :
  model_check self = inl (SyftSuccess "Model is Valid")
  /\ forall asset force_replace,
       model_check (fst (add_asset self asset force_replace))
       = inl (SyftSuccess "Model is Valid").
Proof.
  assert (H : forall s : CreateModel, model_check s = inl (SyftSuccess "Model is Valid")).
  { intros s. unfold model_check.
    assert (Hnil : filter (fun result => negb (response_bool result))
                          (map asset_check (asset_list s)) = []).
    { induction (asset_list s) as [|a l IH]; [reflexivity | exact IH]. }
    now rewrite Hnil. }
  split; [apply H | intros; apply H].
Qed.

Section TextFacts.

Lemma prefix_app (p s : string) :
  String.prefix p s = true <-> exists t, s = (p ++ t)%string.
Proof.
  revert s. induction p as [|a p IH]; intros s.
  - split; [intros _; now exists s | intros _; now destruct s].
  - destruct s as [|b s]; simpl.
    + split; [discriminate | intros [t Ht]; discriminate].
    + destruct (Ascii.ascii_dec a b) as [<- | Hne].
      * rewrite IH. split; intros [t Ht]; exists t; congruence.
      * split; [discriminate|]. intros [t [= Hab _]]. congruence.
Qed.

Lemma endswith_app (s suffix : string) :
  endswith s suffix = true <-> exists a, s = (a ++ suffix)%string.
Proof.
  induction s as [|c s IH]; simpl.
  - rewrite orb_false_r, String.eqb_eq. split.
    + intros <-. now exists ""%string.
    + intros [[|c a] Ha]; [exact Ha | discriminate].
  - rewrite orb_true_iff, String.eqb_eq, IH. split.
    + intros [<- | [a ->]]; [now exists ""%string | now exists (String c a)].
    + intros [[|c' a] Ha]; [now left | right]. injection Ha as _ ->. now exists a.
Qed.

Lemma denied_after_permission (a t : string) :
  ("Permission" ++ t = a ++ "denied")%string ->
  exists middle, a = ("Permission" ++ middle)%string.
Proof.
  intros H.
  do 10 (destruct a as [|? a]; [discriminate H | simpl in H; injection H as <- H]).
  now exists a.
Qed.

End TextFacts.

(** X25.  Permission is withheld exactly for the texts that begin with
    [Permission] and go on to end with [denied]; the two words cannot
    overlap.  Everything that is no string has permission. *)
Theorem permission_is_withheld_for_denial_texts (s : string) :
  (has_permission (Some s) = false
   <-> exists middle, s = ("Permission" ++ middle ++ "denied")%string)
  /\ has_permission None = true.
Proof.
  split; [|reflexivity].
  unfold has_permission, startswith.
  rewrite negb_false_iff, andb_true_iff, prefix_app, endswith_app. split.
  - intros [[t Ht] [a Ha]]. subst s.
    destruct (denied_after_permission a t Ha) as [middle ->].
    exists middle. simpl in Ha. injection Ha as ->. reflexivity.
  - intros [middle ->]. split.
    + now exists (middle ++ "denied")%string.
    + now exists ("Permission" ++ middle)%string.
Qed.

(** ** The rendering of a signature *)

Section RenderFacts.
Context {P : Rendering}.

Lemma render_loop_shown (params : list Param) (pos_only kw_only : bool) :
  shown (render_loop params pos_only kw_only) = params.
Proof.
  revert pos_only kw_only. induction params as [|p ps IH]; intros po ko; simpl.
  - now destruct po.
  - destruct (param_kind_of p), po, ko; simpl; unfold shown in *; simpl;
      now rewrite IH.
Qed.

Lemma render_loop_stars (params : list Param) (pos_only kw_only : bool) :
  length (filter is_star (render_loop params pos_only kw_only))
  <= (if kw_only then 1 else 0).
Proof.
  revert pos_only kw_only. induction params as [|p ps IH]; intros po ko; simpl.
  - destruct po, ko; simpl; lia.
  - destruct (param_kind_of p), po, ko; simpl;
      match goal with
      | |- context [render_loop ps ?a ?b] => specialize (IH a b); simpl in IH; lia
      end.
Qed.

Lemma render_loop_slashes (params : list Param) (pos_only kw_only : bool) :
  length (filter is_slash (render_loop params pos_only kw_only))
  <= (if pos_only then 1 else 0) + length (filter is_positional_only params).
Proof.
  revert pos_only kw_only. induction params as [|p ps IH]; intros po ko; simpl.
  - destruct po; simpl; lia.
  - unfold is_positional_only at 1.
    destruct (param_kind_of p), po, ko; simpl;
      match goal with
      | |- context [render_loop ps ?a ?b] => specialize (IH a b); simpl in IH; lia
      end.
Qed.

End RenderFacts.

(** X26.  The entries of a rendered signature are its parameters, each
    once and in their order, with markers between them: at most one
    [*], and no more [/] than there are positional-only parameters, so
    none at all when there is none.  The text begins with the name and
    an opening parenthesis, on one line or on several. *)
Theorem rendering_shows_each_parameter_once
    {P : Rendering} (obj_signature : Signature) :
  shown (render_loop (parameters obj_signature) false true) = parameters obj_signature
  /\ length (filter is_star (render_loop (parameters obj_signature) false true)) <= 1
  /\ length (filter is_slash (render_loop (parameters obj_signature) false true))
     <= length (filter is_positional_only (parameters obj_signature))
  /\ length (parameters obj_signature)
     <= length (render_loop (parameters obj_signature) false true)
     <= length (parameters obj_signature) + 1
        + length (filter is_positional_only (parameters obj_signature))
  /\ forall obj_name, exists rest,
       _render_signature obj_signature obj_name = (obj_name ++ "(" ++ rest)%string.
Proof.
  split; [apply render_loop_shown|].
  split; [apply (render_loop_stars _ false true)|].
  split; [apply (render_loop_slashes _ false true)|].
  split.
  2: { intros obj_name. unfold _render_signature.
       destruct (Nat.ltb _ _), (return_annotation obj_signature) as [t|];
         eexists; rewrite ?string_app_assoc; simpl; reflexivity. }
  pose proof (render_loop_shown (parameters obj_signature) false true) as Hshown.
  pose proof (render_loop_stars (parameters obj_signature) false true) as Hstars.
  pose proof (render_loop_slashes (parameters obj_signature) false true) as Hslashes.
  simpl in Hstars, Hslashes.
  assert (Hlen : forall l : list entry,
             length l = length (shown l) + length (filter is_star l)
                        + length (filter is_slash l)).
  { induction l as [|[| |p] l IH]; simpl; unfold shown in *; simpl; lia. }
  rewrite (Hlen (render_loop _ _ _)), Hshown. lia.
Qed.
